(** * charmstore-client: resource upload (cmd/charm/charmcmd)

    A shallow embedding of the resource upload code of the charm store
    client: [uploadResource], [uploadFileResource], [uploadDockerResource],
    [uploadExternalDockerResource], [imageDigestForReference],
    [dockerRegistryDo], [referenceTagOrDigest], [registryAuthorizer],
    [registryEndpointForReference] and [readSeekerSHA256].

    Calls that leave the process (the file system, the upload-id cache, the
    charm store client, the docker daemon, the registry, the loggers) are
    the constructors of [Call]; a Go function that performs them is a
    [Prog], a finite tree of calls, and [run] executes it against an
    arbitrary environment, recording every call with its answer. *)

From Stdlib Require Import ZArith Lia String Ascii.
From Stdlib.Strings Require Import Byte.
From stdpp Require Import gmap strings list.

Open Scope Z_scope.

Set Warnings "-register-all,-abstract-large-number".

(** ** Bytes *)

Abbreviation byte := Byte.byte.

Definition byte_to_Z (b : byte) : Z := Z.of_N (Byte.to_N b).

Definition byte_of_Z (z : Z) : byte :=
  match Byte.of_N (Z.to_N (z mod 256)) with
  | Some b => b
  | None => Byte.x00
  end.

Definition bytes_of_string (s : string) : list byte := list_byte_of_string s.

(** ** crypto/sha256

    The Go standard library's SHA-256 (FIPS 180-4), on 32-bit words held in
    [Z] with the wrap-around written out. *)

Module SHA256.

Definition Size : nat := 32%nat.
Definition BlockSize : nat := 64%nat.

Definition w32 (x : Z) : Z := Z.land x 0xffffffff.
Definition add32 (x y : Z) : Z := w32 (x + y).
Definition rotr (n x : Z) : Z :=
  Z.lor (Z.shiftr x n) (w32 (Z.shiftl x (32 - n))).

Definition Ch (x y z : Z) : Z :=
  Z.lxor (Z.land x y) (Z.land (Z.lnot x) z).
Definition Maj (x y z : Z) : Z :=
  Z.lxor (Z.lxor (Z.land x y) (Z.land x z)) (Z.land y z).
Definition bsig0 (x : Z) : Z :=
  Z.lxor (Z.lxor (rotr 2 x) (rotr 13 x)) (rotr 22 x).
Definition bsig1 (x : Z) : Z :=
  Z.lxor (Z.lxor (rotr 6 x) (rotr 11 x)) (rotr 25 x).
Definition ssig0 (x : Z) : Z :=
  Z.lxor (Z.lxor (rotr 7 x) (rotr 18 x)) (Z.shiftr x 3).
Definition ssig1 (x : Z) : Z :=
  Z.lxor (Z.lxor (rotr 17 x) (rotr 19 x)) (Z.shiftr x 10).

(** The first 64 primes. *)
Definition primes : list Z :=
  [ 2; 3; 5; 7; 11; 13; 17; 19; 23; 29; 31; 37; 41; 43; 47; 53;
    59; 61; 67; 71; 73; 79; 83; 89; 97; 101; 103; 107; 109; 113; 127; 131;
    137; 139; 149; 151; 157; 163; 167; 173; 179; 181; 191; 193; 197; 199;
    211; 223; 227; 229; 233; 239; 241; 251; 257; 263; 269; 271; 277; 281;
    283; 293; 307; 311 ].

(** The integer cube root, bit by bit from bit [bits - 1] down. *)
Fixpoint cbrt_bits (bits : nat) (x n : Z) : Z :=
  match bits with
  | O => x
  | S b =>
      let y := x + 2 ^ Z.of_nat b in
      cbrt_bits b (if y * y * y <=? n then y else x) n
  end.

(** The first 32 bits of the fractional part of the cube root and of the
    square root of [p]. *)
Definition fracCbrt (p : Z) : Z := w32 (cbrt_bits 36 0 (p * 2 ^ 96)).
Definition fracSqrt (p : Z) : Z := w32 (Z.sqrt (p * 2 ^ 64)).

(** The round constants [_K]: of the cube roots of the first 64 primes,
    from 0x428a2f98 to 0xc67178f2. *)
Definition _K : list Z := Eval vm_compute in map fracCbrt primes.

(** The chaining value [h0 .. h7]. *)
Record digest := Digest {
  h0 : Z; h1 : Z; h2 : Z; h3 : Z; h4 : Z; h5 : Z; h6 : Z; h7 : Z
}.

(** The initial value: of the square roots of the first 8 primes, from
    0x6a09e667 to 0x5be0cd19. *)
Definition init : digest :=
  Eval vm_compute in
    Digest (fracSqrt 2) (fracSqrt 3) (fracSqrt 5) (fracSqrt 7)
           (fracSqrt 11) (fracSqrt 13) (fracSqrt 17) (fracSqrt 19).

(** Big-endian words. *)
Definition be32 (w : Z) : list byte :=
  [ byte_of_Z (Z.shiftr w 24); byte_of_Z (Z.shiftr w 16);
    byte_of_Z (Z.shiftr w 8); byte_of_Z w ].

Definition be64 (w : Z) : list byte :=
  be32 (Z.shiftr w 32) ++ be32 w.

Definition word_of (b3 b2 b1 b0 : byte) : Z :=
  Z.lor (Z.lor (Z.shiftl (byte_to_Z b3) 24) (Z.shiftl (byte_to_Z b2) 16))
        (Z.lor (Z.shiftl (byte_to_Z b1) 8) (byte_to_Z b0)).

Fixpoint words (bs : list byte) : list Z :=
  match bs with
  | b3 :: b2 :: b1 :: b0 :: rest => word_of b3 b2 b1 b0 :: words rest
  | _ => []
  end.

(** The message schedule, newest word first: with [w] holding
    [W(t-1) .. W(0)], the next word is
    [ssig1 W(t-2) + W(t-7) + ssig0 W(t-15) + W(t-16)]. *)
Fixpoint schedule (n : nat) (w : list Z) : list Z :=
  match n with
  | O => w
  | S n' =>
      let wt := add32 (add32 (ssig1 (nth 1 w 0)) (nth 6 w 0))
                      (add32 (ssig0 (nth 14 w 0)) (nth 15 w 0)) in
      schedule n' (wt :: w)
  end.

Definition round (d : digest) (kw : Z * Z) : digest :=
  let t1 := add32 (add32 (add32 (h7 d) (bsig1 (h4 d)))
                         (add32 (Ch (h4 d) (h5 d) (h6 d)) kw.1)) kw.2 in
  let t2 := add32 (bsig0 (h0 d)) (Maj (h0 d) (h1 d) (h2 d)) in
  Digest (add32 t1 t2) (h0 d) (h1 d) (h2 d)
         (add32 (h3 d) t1) (h4 d) (h5 d) (h6 d).

Definition block (d : digest) (p : list byte) : digest :=
  let w := rev (schedule 48 (rev (words p))) in
  let r := fold_left round (combine _K w) d in
  Digest (add32 (h0 d) (h0 r)) (add32 (h1 d) (h1 r))
         (add32 (h2 d) (h2 r)) (add32 (h3 d) (h3 r))
         (add32 (h4 d) (h4 r)) (add32 (h5 d) (h5 r))
         (add32 (h6 d) (h6 r)) (add32 (h7 d) (h7 r)).

(** Padding: 0x80, zeros up to 56 mod 64, the bit length on 8 bytes. *)
Definition padding (len : nat) : list byte :=
  let zeros := ((BlockSize - (len + 9) mod BlockSize) mod BlockSize)%nat in
  Byte.x80 :: repeat Byte.x00 zeros ++ be64 (Z.of_nat len * 8).

Fixpoint blocks (n : nat) (d : digest) (bs : list byte) : digest :=
  match n with
  | O => d
  | S n' => blocks n' (block d (take BlockSize bs)) (drop BlockSize bs)
  end.

Definition checkSum (msg : list byte) : digest :=
  let padded := msg ++ padding (length msg) in
  blocks (length padded / BlockSize)%nat init padded.

(** [hasher.Sum(nil)] after the bytes [msg] have been written. *)
Definition Sum (msg : list byte) : list byte :=
  let d := checkSum msg in
  be32 (h0 d) ++ be32 (h1 d) ++ be32 (h2 d) ++ be32 (h3 d) ++
  be32 (h4 d) ++ be32 (h5 d) ++ be32 (h6 d) ++ be32 (h7 d).

Definition hex_digit (n : Z) : ascii :=
  ascii_of_nat (Z.to_nat (if n <? 10 then 48 + n else 87 + n)).

Fixpoint hex (bs : list byte) : string :=
  match bs with
  | [] => EmptyString
  | b :: rest =>
      String (hex_digit (byte_to_Z b / 16))
        (String (hex_digit (byte_to_Z b mod 16)) (hex rest))
  end.

End SHA256.

(** ** Errors (gopkg.in/errgo.v1)

    A Go [error] is either one of the sentinel values the code compares
    with, a plain error carrying a message, or an [errgo.Err], which
    records a message, the error it wraps and, when it was not masked, a
    cause. *)

Inductive error : Type :=
| io_EOF                 (* io.EOF *)
| ErrUploadNotFound      (* csclient.ErrUploadNotFound *)
| errCacheEntryNotFound  (* errCacheEntryNotFound, of the upload-id cache *)
| errorString (s : string)
| ErrgoErr (Message_ : string) (Cause_ : option error)
           (Underlying_ : option error).

(** [errgo.Cause]: the recorded cause when there is one, else the error
    itself. *)
Definition Cause (err : error) : error :=
  match err with
  | ErrgoErr _ (Some c) _ => c
  | _ => err
  end.

(** [errgo.New] and [errgo.Newf], with the message already formatted. *)
Definition errgo_New (msg : string) : error := ErrgoErr msg None None.

(** [errgo.Mask] with no pass function: the cause is hidden. *)
Definition errgo_Mask (underlying : error) : error :=
  ErrgoErr "" None (Some underlying).

(** [errgo.Notef] with the message already formatted: the cause is hidden
    as well. *)
Definition errgo_Notef (underlying : error) (msg : string) : error :=
  ErrgoErr msg None (Some underlying).

Definition isErrUploadNotFound (err : error) : bool :=
  match err with ErrUploadNotFound => true | _ => false end.

Definition isErrCacheEntryNotFound (err : error) : bool :=
  match err with errCacheEntryNotFound => true | _ => false end.

Definition isEOF (err : error) : bool :=
  match err with io_EOF => true | _ => false end.

(** A Go result [(v, err)], read as the code reads it: the value when
    [err == nil], the error otherwise. *)
Inductive result (A : Type) : Type :=
| Ok (v : A)
| Err (err : error).

Arguments Ok {A} v.
Arguments Err {A} err.

Definition isOk {A} (r : result A) : bool :=
  match r with Ok _ => true | Err _ => false end.

Definition isErr {A} (r : result A) : bool := negb (isOk r).

(** ** Seekable byte sources (io.ReadSeeker) *)

(** [Read n] stands for [Read(p)] with [len(p) = n]: the bytes stored in
    [p[:n']] and the error; [Seek] is [Seek(offset, whence)]. *)
Class ReadSeeker (S : Type) : Type := {
  Read : nat -> S -> list byte * option error * S;
  Seek : Z -> Z -> S -> result Z * S
}.

(** An open file: its bytes and the read position, and the I/O failures
    it is going to meet: a read that reaches byte [readFault.1] fails with
    [readFault.2], and every seek fails with [seekFault]. *)
Record File : Type := mkFile {
  contents : list byte;
  offset : nat;
  readFault : option (nat * error);
  seekFault : option error
}.

Definition setOffset (f : File) (pos : nat) : File :=
  mkFile (contents f) pos (readFault f) (seekFault f).

Definition EINVAL : error := errorString "invalid argument".

(** The bytes a read of at most [n] bytes may deliver before the fault. *)
Definition readable (n : nat) (f : File) : nat :=
  match readFault f with
  | Some (k, _) => if (offset f <=? k)%nat then n `min` (k - offset f) else n
  | None => n
  end.

Definition File_Read (n : nat) (f : File) : list byte * option error * File :=
  match n with
  | O => ([], None, f)
  | S _ =>
      match readFault f with
      | Some (k, err) =>
          if (offset f =? k)%nat then ([], Some err, f)
          else
            match take (readable n f) (drop (offset f) (contents f)) with
            | [] => ([], Some io_EOF, f)
            | chunk => (chunk, None, setOffset f (offset f + length chunk))
            end
      | None =>
          match take n (drop (offset f) (contents f)) with
          | [] => ([], Some io_EOF, f)
          | chunk => (chunk, None, setOffset f (offset f + length chunk))
          end
      end
  end.

Definition File_Seek (off whence : Z) (f : File) : result Z * File :=
  match seekFault f with
  | Some err => (Err err, f)
  | None =>
      let base :=
        if whence =? 0 then Some 0
        else if whence =? 1 then Some (Z.of_nat (offset f))
        else if whence =? 2 then Some (Z.of_nat (length (contents f)))
        else None in
      match base with
      | None => (Err EINVAL, f)
      | Some b =>
          if b + off <? 0 then (Err EINVAL, f)
          else (Ok (b + off), setOffset f (Z.to_nat (b + off)))
      end
  end.

#[export] Instance File_ReadSeeker : ReadSeeker File := {
  Read := File_Read;
  Seek := File_Seek
}.

(** ** io.Copy into a hash

    [io.Copy(hasher, r)]: read buffers of 32 KiB from [r] and write them to
    the hasher until a read reports an error; [io.EOF] ends the copy without
    error.  The hasher is the list of bytes written to it so far (a
    [hash.Hash] never fails a write).  The loop runs as long as the source
    keeps delivering, so it is given fuel: [None] is a copy that has not
    finished within it. *)

Definition copyBufSize : nat := 32768%nat.

Fixpoint io_Copy {S : Type} `{ReadSeeker S} (fuel : nat)
    (hasher : list byte) (src : S) : option (list byte * option error * S) :=
  match fuel with
  | O => None
  | Datatypes.S fuel' =>
      let '(buf, er, src') := Read copyBufSize src in
      let hasher' := hasher ++ buf in
      match er with
      | Some e => Some (hasher', if isEOF e then None else Some e, src')
      | None => io_Copy fuel' hasher' src'
      end
  end.

(** [readSeekerSHA256] returns the SHA256 checksum of [r], seeking back to
    the start after it has read the data. *)
Definition readSeekerSHA256 {S : Type} `{ReadSeeker S} (fuel : nat) (r : S)
    : option (result (list byte) * S) :=
  match io_Copy fuel [] r with
  | None => None
  | Some (_, Some err, r') => Some (Err (errgo_Mask err), r')
  | Some (hasher, None, r') =>
      match Seek 0 0 r' with
      | (Err err, r'') => Some (Err (errgo_Mask err), r'')
      | (Ok _, r'') => Some (Ok (SHA256.Sum hasher), r'')
      end
  end.

(** A file delivers at least one byte per read until the end or the
    fault, so one more round than it has bytes left ends the copy. *)
Definition fileFuel (f : File) : nat :=
  Datatypes.S (length (contents f) - offset f).

(** [readSeekerSHA256(f)] for an [*os.File]; the fuel is enough
    ([readSeekerSHA256_file_fuel]), the last case is never taken. *)
Definition readSeekerSHA256_file (f : File) : result (list byte) * File :=
  match readSeekerSHA256 (fileFuel f) f with
  | Some r => r
  | None => (Err (errorString "unreachable"), f)
  end.

(** ** Data of the upload commands *)

(** [time.Duration] counts nanoseconds. *)
Definition time_Hour : Z := 3600 * 1000000000.

Definition uploadIdCacheExpiryDuration : Z := 48 * time_Hour.

(** [resource.Type] of gopkg.in/juju/charm.v6. *)
Inductive resourceType : Type :=
| TypeUnknown
| TypeFile
| TypeDocker.

Definition resourceType_String (t : resourceType) : string :=
  match t with
  | TypeUnknown => "<unknown>"
  | TypeFile => "file"
  | TypeDocker => "docker"
  end.

(** [uploadResourceParams].  The context [ctxt] and the charm store client
    [client] are reached through calls; [meta] is its [Resources] map, from
    resource name to resource type; [charmId] is the charm URL. *)
Record uploadResourceParams : Type := mkParams {
  meta : gmap string resourceType;
  charmId : string;
  resourceName : string;
  reference : string;
  cachePath : string
}.

(** The value [NewUploadIdCache(dir, expiryDuration)] returns. *)
Record UploadIdCache : Type := NewUploadIdCache {
  cacheDir : string;
  cacheExpiryDuration : Z
}.

(** Modelled from the spec: the entry type of the upload-id cache is
    declared in a file of the repository that is not among the sources;
    the spec's CacheEntry lists its fields.  The upload code reads
    [UploadId] only. *)
Record UploadIdCacheEntry : Type := mkEntry {
  entryCharmId : string;
  entryResourceName : string;
  entryContentHash : list byte;
  UploadId : string;
  entryCreatedAt : Z
}.

(** An image reference of github.com/docker/distribution/reference: the
    repository name (domain and path), and the tag and the digest the
    reference carries.  A reference with a tag is [reference.Tagged], one
    with a digest is [reference.Canonical]; one with both is both. *)
Record Named : Type := mkNamed {
  refDomain : string;
  refPath : string;
  refTag : option string;
  refDigest : option string
}.

Definition reference_Domain (ref : Named) : string := refDomain ref.
Definition reference_Path (ref : Named) : string := refPath ref.

Definition Named_Name (ref : Named) : string :=
  if String.eqb (refDomain ref) "" then refPath ref
  else refDomain ref ++ "/" ++ refPath ref.

Definition Named_String (ref : Named) : string :=
  Named_Name ref
  ++ match refTag ref with Some t => ":" ++ t | None => "" end
  ++ match refDigest ref with Some d => "@" ++ d | None => "" end.

Definition reference_IsNameOnly (ref : Named) : bool :=
  match refTag ref, refDigest ref with
  | None, None => true
  | _, _ => false
  end.

(** [reference.TagNameOnly]: a bare name gets the default tag. *)
Definition reference_TagNameOnly (ref : Named) : Named :=
  if reference_IsNameOnly ref
  then mkNamed (refDomain ref) (refPath ref) (Some "latest") None
  else ref.

(** net/http: a response as far as the code reads it, and a request.
    [Header] maps a canonical header name to its values. *)
Record Response : Type := mkResponse {
  Status : string;
  StatusCode : Z;
  Header : gmap string (list string)
}.

Record Request : Type := mkRequest {
  Method : string;
  URL : string;
  ReqHeader : gmap string (list string)
}.

Definition http_StatusOK : Z := 200.

(** [Header.Get]: the first value of the header, the empty string when
    there is none. *)
Definition Header_Get (h : gmap string (list string)) (key : string) : string :=
  match h !! key with
  | Some (v :: _) => v
  | _ => ""
  end.

(** [Header.Set]. *)
Definition Header_Set (h : gmap string (list string)) (key value : string)
    : gmap string (list string) :=
  <[key := [value]]> h.

(** The authorizer [registryAuthorizer] builds: the challenge manager
    holding the response of the API root, and a token handler for the
    repository path with the single action pull. *)
Record RequestModifier : Type := mkAuthorizer {
  challengeResponse : Response;
  tokenScopePath : string;
  tokenScopeActions : list string
}.

(** [params.DockerInfoResponse]. *)
Record DockerInfo : Type := mkDockerInfo {
  ImageName : string;
  Username : string;
  Password : string
}.

(** The status the push reports in the aux part of its messages. *)
Record finalStatusT : Type := mkFinalStatus {
  fsTag : string;
  fsDigest : string;
  fsSize : Z
}.

(** One aux message as [json.Unmarshal] of [m.Aux] into [finalStatus] sees
    it: the fields it sets, and the error it reports. *)
Record auxMessage : Type := mkAux {
  auxTag : option string;
  auxDigest : option string;
  auxSize : option Z;
  auxErr : option error
}.

Definition json_Unmarshal (m : auxMessage) (s : finalStatusT) : finalStatusT :=
  mkFinalStatus (default (fsTag s) (auxTag m))
                (default (fsDigest s) (auxDigest m))
                (default (fsSize s) (auxSize m)).

(** ** Strings (package strings) *)

Definition strings_HasPrefix (s pre : string) : bool := String.prefix pre s.

Definition strings_TrimPrefix (s pre : string) : string :=
  if strings_HasPrefix s pre
  then String.substring (String.length pre)
                        (String.length s - String.length pre) s
  else s.

Definition quote : string := String (ascii_of_nat 34) EmptyString.

(** [%q] of a string without characters to escape. *)
Definition quoted (s : string) : string := quote ++ s ++ quote.

(** ** Calls to the outside

    Every call the upload code makes to something it does not own, indexed
    by the type of the answer.  A method of the charm store client that is
    handed the progress display may call the display back before it
    returns: such a call is answered first with the notifications it
    delivers, and its return is a call of its own. *)

Inductive Call : Type -> Type :=
(* the command context (github.com/juju/cmd) *)
| CtxtAbsPath (rel : string) : Call string
| CtxtInfof (msg : string) : Call unit
| CtxtQuiet : Call bool
| StdoutTerminal : Call (option Z)
(* package os *)
| OsOpen (path : string) : Call (result File)
| FileStat : Call (result Z)
| FileClose : Call unit
(* the upload-id cache *)
| CacheRemoveExpiredEntries (c : UploadIdCache) : Call (option error)
| CacheLookup (c : UploadIdCache) (charmId resourceName : string)
    (contentHash : list byte) : Call (result UploadIdCacheEntry)
| CacheUpdate (c : UploadIdCache) (uploadId charmId resourceName : string)
    (contentHash : list byte) : Call (option error)
| CacheRemove (c : UploadIdCache) (charmId resourceName : string)
    (contentHash : list byte) : Call (option error)
(* loggers *)
| LoggerWarningf (msg : string) (err : error) : Call unit
| LoggerErrorf (msg : string) (err : error) : Call unit
| LogPrintf (method url : string) (h : gmap string (list string)) : Call unit
(* the progress display *)
| NewProgressDisplay (name : string) (quiet : bool) (size : Z) : Call unit
| DisplayClose : Call unit
| DisplayError (err : error) : Call unit
| FillerSetDisplay (set : bool) : Call unit
(* the charm store client (csclient) *)
| ResumeUploadResource (uploadId charmId resourceName path : string)
    (content : File) (size : Z) : Call (list string)
| ResumeUploadResourceReturn : Call (result Z)
| UploadResource (charmId resourceName path : string)
    (content : File) (size : Z) : Call (list string)
| UploadResourceReturn : Call (result Z)
| DockerResourceUploadInfo (charmId resourceName : string)
    : Call (result DockerInfo)
| AddDockerResource (charmId resourceName imageName digest : string)
    : Call (result Z)
(* the docker reference parser *)
| ParseNormalizedNamed (s : string) : Call (result Named)
(* net/http and the registry authorizer *)
| HttpGet (url : string) : Call (result Response)
| BodyClose : Call unit
| HttpNewRequest (method url : string) : Call (option error)
| ModifyRequest (m : RequestModifier) (req : Request) : Call (result Request)
| HttpDo (req : Request) : Call (result Response)
(* the local docker daemon *)
| NewEnvClient : Call (option error)
| ImageTag (source target : string) : Call (option error)
| JsonMarshalAuthConfig (username password : string)
    : Call (result (list byte))
| ImagePush (image : string) (authData : list byte) : Call (option error)
| DisplayJSONMessagesStream (quiet : bool) (terminal : option Z)
    : Call (list auxMessage * option error).

(** A program: it returns, or makes a call and goes on with the answer. *)
Inductive Prog (R : Type) : Type :=
| Ret (r : R)
| Vis {X : Type} (c : Call X) (k : X -> Prog R).

Arguments Ret {R} r.
Arguments Vis {R X} c k.

Fixpoint bind {A B : Type} (m : Prog A) (k : A -> Prog B) : Prog B :=
  match m with
  | Ret a => k a
  | Vis c k' => Vis c (fun x => bind (k' x) k)
  end.

Definition call {X : Type} (c : Call X) : Prog X := Vis c Ret.

Declare Scope prog_scope.
Delimit Scope prog_scope with prog.
Bind Scope prog_scope with Prog.

Notation "x <- m ;; k" := (bind m (fun x => k))
  (at level 20, m at level 99, k at level 200) : prog_scope.
Notation "m ;; k" := (bind m (fun _ => k))
  (at level 100, k at level 200, right associativity) : prog_scope.
Notation "' pat <- m ;; k" := (bind m (fun x => match x with pat => k end))
  (at level 20, pat pattern, m at level 99, k at level 200) : prog_scope.

Open Scope prog_scope.

(** [defer cleanup] around the rest of a function body. *)
Definition defer {R : Type} (cleanup : Prog unit) (body : Prog R) : Prog R :=
  r <- body ;; cleanup ;; Ret r.

(** [forM_ xs f]: [f] on each element in turn. *)
Fixpoint forM_ {A : Type} (xs : list A) (f : A -> Prog unit) : Prog unit :=
  match xs with
  | [] => Ret tt
  | x :: xs' => f x ;; forM_ xs' f
  end.

(** Modelled from the spec: the progress display ([newProgressDisplay])
    is declared in a file of the repository that is not among the sources.
    The spec has the store API invoke the caller-supplied callback with the
    assigned upload identifier as soon as one is allocated, before the
    transfer completes.  So a call of the charm store client that is handed
    the display runs the callback on every upload id the client notifies,
    in order, and then returns; nothing is assumed of how many it
    notifies. *)
Definition withDisplay (start : Call (list string)) (finish : Call (result Z))
    (callback : string -> Prog unit) : Prog (result Z) :=
  started <- call start ;;
  forM_ started callback ;;
  call finish.

(** ** Running a program

    An event is a call with its answer; an environment answers every call
    from its state.  [run] gives the result, the final state and the events
    in order. *)

Definition Event : Type := { X : Type & (Call X * X)%type }.

Definition event {X : Type} (c : Call X) (a : X) : Event := existT X (c, a).

Definition Env (W : Type) : Type := forall X : Type, Call X -> W -> X * W.

Fixpoint run {W R : Type} (env : Env W) (p : Prog R) (w : W)
    : R * W * list Event :=
  match p with
  | Ret r => (r, w, [])
  | Vis c k =>
      let '(a, w1) := env _ c w in
      let '(r, w2, t) := run env (k a) w1 in
      (r, w2, event c a :: t)
  end.

Definition resultOf {W R : Type} (x : R * W * list Event) : R := x.1.1.
Definition traceOf {W R : Type} (x : R * W * list Event) : list Event := x.2.

(** What holds of the events and the result whatever the answers are. *)
Fixpoint wp {R : Type} (p : Prog R) (Q : list Event -> R -> Prop) : Prop :=
  match p with
  | Ret r => Q [] r
  | Vis c k => forall a, wp (k a) (fun t r => Q (event c a :: t) r)
  end.

(** ** uploadFileResource *)

(** The callback given to [newProgressDisplay]: it records the upload id
    in the cache, when there is a cache. *)
Definition updateUploadId (uploadIdCache : option UploadIdCache)
    (p : uploadResourceParams) (contentHash : list byte) (uploadId : string)
    : Prog unit :=
  match uploadIdCache with
  | None => Ret tt
  | Some c =>
      e <- call (CacheUpdate c uploadId (charmId p) (resourceName p)
                             contentHash) ;;
      match e with
      | Some err => call (LoggerErrorf "cannot update uploadId cache: %v" err)
      | None => Ret tt
      end
  end.

(** The block under [if p.cachePath != ""]: it sets [uploadIdCache],
    [contentHash] and [uploadId], and moves the file; [Err] is a return
    from the function. *)
Definition consultCache (p : uploadResourceParams) (f : File)
    : Prog (result (option UploadIdCache * list byte * string * File)) :=
  if String.eqb (cachePath p) "" then Ret (Ok (None, [], "", f))
  else
    let uploadIdCache :=
      NewUploadIdCache (cachePath p) uploadIdCacheExpiryDuration in
    (* Clean out old entries. *)
    e <- call (CacheRemoveExpiredEntries uploadIdCache) ;;
    match e with
    | Some err =>
        call (LoggerWarningf
                "cannot remove expired uploadId cache entries: %v" err)
    | None => Ret tt
    end ;;
    (* First hash the file contents. *)
    let '(h, f') := readSeekerSHA256_file f in
    match h with
    | Err err => Ret (Err (errgo_Mask err))
    | Ok contentHash =>
        r <- call (CacheLookup uploadIdCache (charmId p) (resourceName p)
                               contentHash) ;;
        match r with
        | Ok entry =>
            (* We've got an existing entry. Try to resume that upload. *)
            call (CtxtInfof "resuming previous upload") ;;
            Ret (Ok (Some uploadIdCache, contentHash, UploadId entry, f'))
        | Err err =>
            if isErrCacheEntryNotFound (Cause err)
            then Ret (Ok (Some uploadIdCache, contentHash, "", f'))
            else Ret (Err (errgo_Mask err))
        end
    end.

(** From [ResumeUploadResource] to the end of the function. *)
Definition transfer (p : uploadResourceParams) (filePath : string)
    (f : File) (size : Z) (uploadIdCache : option UploadIdCache)
    (contentHash : list byte) (uploadId : string) : Prog (result Z) :=
  let callback := updateUploadId uploadIdCache p contentHash in
  (* ResumeUploadResource behaves like UploadResource when uploadId is
     empty. *)
  r <- withDisplay
         (ResumeUploadResource uploadId (charmId p) (resourceName p)
                               filePath f size)
         ResumeUploadResourceReturn callback ;;
  r' <- match r with
        | Ok rev => Ret (Ok rev)
        | Err err =>
            if isErrUploadNotFound (Cause err) then
              call (DisplayError (errgo_New
                "previous upload seems to have expired; restarting.")) ;;
              withDisplay
                (UploadResource (charmId p) (resourceName p) filePath f size)
                UploadResourceReturn callback
            else Ret (Err err)
        end ;;
  match r' with
  | Err err => Ret (Err (errgo_Notef err "can't upload resource"))
  | Ok rev =>
      match uploadIdCache with
      | Some c =>
          (* Clean up the cache entry because it's no longer usable. *)
          e <- call (CacheRemove c (charmId p) (resourceName p)
                                 contentHash) ;;
          match e with
          | Some err =>
              call (LoggerErrorf "cannot remove uploadId cache entry: %v" err)
          | None => Ret tt
          end
      | None => Ret tt
      end ;;
      Ret (Ok rev)
  end.

Definition uploadFileResource (p : uploadResourceParams) : Prog (result Z) :=
  filePath <- call (CtxtAbsPath (reference p)) ;;
  o <- call (OsOpen filePath) ;;
  match o with
  | Err err => Ret (Err (errgo_Mask err))
  | Ok f =>
      defer (call FileClose) (
        info <- call FileStat ;;
        match info with
        | Err err => Ret (Err (errgo_Mask err))
        | Ok size =>
            c <- consultCache p f ;;
            match c with
            | Err err => Ret (Err err)
            | Ok (uploadIdCache, contentHash, uploadId, f') =>
                quiet <- call CtxtQuiet ;;
                call (NewProgressDisplay (reference p) quiet size) ;;
                defer (call DisplayClose) (
                  call (FillerSetDisplay true) ;;
                  defer (call (FillerSetDisplay false))
                    (transfer p filePath f' size uploadIdCache contentHash
                              uploadId))
            end
        end)
  end.

(** ** The registry digest resolver *)

Definition registryEndpointForReference (ref : Named) : string :=
  let h := reference_Domain ref in
  let h := if String.eqb h "docker.io" then "registry-1.docker.io" else h in
  "https://" ++ h ++ "/v2/".

(** [registryAuthorizer] returns a request modifier that will add
    appropriate authorization information to HTTP requests to the given
    API endpoint to authorize them to pull information related to the
    given image path. *)
Definition registryAuthorizer (endpoint path : string)
    : Prog (result RequestModifier) :=
  r <- call (HttpGet endpoint) ;;
  match r with
  | Err err =>
      Ret (Err (errgo_Notef err "cannot get registry authorization response"))
  | Ok resp =>
      defer (call BodyClose) (Ret (Ok (mkAuthorizer resp path ["pull"])))
  end.

Definition dockerRegistryDo (method url : string)
    (reqModifier : RequestModifier) : Prog (result Response) :=
  e <- call (HttpNewRequest method url) ;;
  match e with
  | Some err => Ret (Err (errgo_Mask err))
  | None =>
      let req := mkRequest method url
        (Header_Set ∅ "Accept"
           "application/vnd.docker.distribution.manifest.v2+json") in
      m <- call (ModifyRequest reqModifier req) ;;
      match m with
      | Err err => Ret (Err (errgo_Mask err))
      | Ok req =>
          call (LogPrintf method url (ReqHeader req)) ;;
          r <- call (HttpDo req) ;;
          match r with
          | Err err => Ret (Err (errgo_Mask err))
          | Ok resp => Ret (Ok resp)
          end
      end
  end.

(** [referenceTagOrDigest]: the type switch tries [reference.Tagged]
    first.  The last case is the panic; [reference_TagNameOnly] leaves no
    reference without tag or digest ([referenceTagOrDigest_no_panic]). *)
Definition referenceTagOrDigest (ref : Named) : string :=
  let ref := reference_TagNameOnly ref in
  match refTag ref, refDigest ref with
  | Some tag, _ => tag
  | None, Some digest => digest
  | None, None => ""
  end.

Definition imageDigestForReference (p : uploadResourceParams) (ref : Named)
    : Prog (result string) :=
  let endpoint := registryEndpointForReference ref in
  let path := reference_Path ref in
  a <- registryAuthorizer endpoint path ;;
  match a with
  | Err err => Ret (Err (errgo_Mask err))
  | Ok reqModifier =>
      r <- dockerRegistryDo "HEAD"
             (endpoint ++ path ++ "/manifests/" ++ referenceTagOrDigest ref)
             reqModifier ;;
      match r with
      | Err err => Ret (Err (errgo_Mask err))
      | Ok resp =>
          call BodyClose ;;
          if negb (StatusCode resp =? http_StatusOK) then
            Ret (Err (errgo_New ("cannot get information on "
                                 ++ Named_String ref ++ ": " ++ Status resp)))
          else
            let v := Header_Get (Header resp)
                                "Docker-Distribution-Api-Version" in
            if negb (strings_HasPrefix v "registry/2.") then
              Ret (Err (errgo_New ("incompatible registry version "
                                   ++ quoted v)))
            else
              let digest := Header_Get (Header resp) "Docker-Content-Digest" in
              if String.eqb digest "" then
                Ret (Err (errgo_New "no digest in response"))
              else
                match refDigest ref with
                | Some d =>
                    (* The image is referred to by a digest and that works,
                       so we're all good. *)
                    Ret (Ok d)
                | None =>
                    (* The image is referred to by a tag; check that we can
                       get information on the image using the digest we've
                       just discovered. *)
                    r2 <- dockerRegistryDo "HEAD"
                            (endpoint ++ path ++ "/manifests/" ++ digest)
                            reqModifier ;;
                    match r2 with
                    | Err err => Ret (Err (errgo_Mask err))
                    | Ok resp2 =>
                        call BodyClose ;;
                        if negb (StatusCode resp2 =? http_StatusOK) then
                          Ret (Err (errgo_New ("cannot verify image digest: "
                                               ++ Status resp2)))
                        else Ret (Ok digest)
                    end
                end
      end
  end.

(** ** uploadDockerResource *)

Definition uploadExternalDockerResource (p : uploadResourceParams)
    (ref : Named) : Prog (result Z) :=
  d <- imageDigestForReference p ref ;;
  match d with
  | Err err => Ret (Err (errgo_Mask err))
  | Ok digest =>
      r <- call (AddDockerResource (charmId p) (resourceName p)
                                   (Named_Name ref) digest) ;;
      match r with
      | Err err => Ret (Err (errgo_Notef err "cannot add docker resource"))
      | Ok rev => Ret (Ok rev)
      end
  end.

(** The aux callback of the message stream, on each aux message. *)
Fixpoint unmarshalAux (ms : list auxMessage) (finalStatus : finalStatusT)
    : Prog finalStatusT :=
  match ms with
  | [] => Ret finalStatus
  | m :: ms' =>
      match auxErr m with
      | Some err => call (LoggerErrorf "cannot unmarshal aux data: %v" err)
      | None => Ret tt
      end ;;
      unmarshalAux ms' (json_Unmarshal m finalStatus)
  end.

(** [uploadDockerResource] from [DockerResourceUploadInfo] on: tag the
    local image, push it, and register the digest the push reports.  The
    push is given [authData] in base64. *)
Definition pushDockerResource (p : uploadResourceParams) (ref : Named)
    : Prog (result Z) :=
  (* ask charmstore for upload info *)
  i <- call (DockerResourceUploadInfo (charmId p) (resourceName p)) ;;
  match i with
  | Err err => Ret (Err (errgo_Notef err "cannot get upload info"))
  | Ok info =>
  c <- call NewEnvClient ;;
  match c with
  | Some err => Ret (Err (errgo_Notef err "cannot make docker client"))
  | None =>
  t <- call (ImageTag (Named_String ref) (ImageName info)) ;;
  match t with
  | Some err => Ret (Err (errgo_Notef err "cannot tag image in local docker"))
  | None =>
  j <- call (JsonMarshalAuthConfig (Username info) (Password info)) ;;
  match j with
  | Err err => Ret (Err (errgo_Mask err))
  | Ok authData =>
  s <- call (ImagePush (ImageName info) authData) ;;
  match s with
  | Some err => Ret (Err (errgo_Notef err "cannot push image"))
  | None =>
  quiet <- call CtxtQuiet ;;
  tty <- (if quiet then Ret None else call StdoutTerminal) ;;
  ' (auxes, e) <- call (DisplayJSONMessagesStream quiet tty) ;;
  finalStatus <- unmarshalAux auxes (mkFinalStatus "" "" 0) ;;
  match e with
  | Some err => Ret (Err (errgo_Notef err "failed to upload"))
  | None =>
  if String.eqb (fsDigest finalStatus) "" then
    Ret (Err (errgo_New "no digest found upload response"))
  else
    r <- call (AddDockerResource (charmId p) (resourceName p) ""
                                 (fsDigest finalStatus)) ;;
    match r with
    | Err err => Ret (Err (errgo_Notef err "cannot add docker resource"))
    | Ok rev => Ret (Ok rev)
    end
  end end end end end end.

Definition uploadDockerResource (p : uploadResourceParams) : Prog (result Z) :=
  let refStr := strings_TrimPrefix (reference p) "external::" in
  r <- call (ParseNormalizedNamed refStr) ;;
  match r with
  | Err err =>
      Ret (Err (errgo_Notef err ("invalid image name "
                                 ++ quoted (reference p))))
  | Ok ref =>
      if negb (String.length refStr =? String.length (reference p))%nat then
        (* It's an external image. Find the digest from its associated
           repository, then tell the charm store about that. *)
        uploadExternalDockerResource p ref
      else pushDockerResource p ref
  end.

(** ** uploadResource *)

Definition uploadResource (p : uploadResourceParams) : Prog (result Z) :=
  match meta p !! resourceName p with
  | None =>
      Ret (Err (errgo_New ("no such resource " ++ quoted (resourceName p))))
  | Some TypeFile => uploadFileResource p
  | Some TypeDocker => uploadDockerResource p
  | Some t =>
      Ret (Err (errgo_New ("unsupported resource type "
                           ++ quoted (resourceType_String t))))
  end.

(** ** Reading a trace *)

Definition callOf (e : Event) : Call (projT1 e) := (projT2 e).1.

Fixpoint count (P : Event -> bool) (t : list Event) : nat :=
  match t with
  | [] => 0%nat
  | e :: t' => ((if P e then 1 else 0) + count P t')%nat
  end.

(** The events before the first one that satisfies [P], and those after
    it. *)
Fixpoint before (P : Event -> bool) (t : list Event) : list Event :=
  match t with
  | [] => []
  | e :: t' => if P e then [] else e :: before P t'
  end.

Fixpoint after (P : Event -> bool) (t : list Event) : list Event :=
  match t with
  | [] => []
  | e :: t' => if P e then t' else after P t'
  end.

(** The upload-id cache. *)
Definition isCacheSweep (e : Event) : bool :=
  match callOf e with CacheRemoveExpiredEntries _ => true | _ => false end.

Definition isCacheLookup (e : Event) : bool :=
  match callOf e with CacheLookup _ _ _ _ => true | _ => false end.

Definition isCacheUpdate (e : Event) : bool :=
  match callOf e with CacheUpdate _ _ _ _ _ => true | _ => false end.

Definition isCacheRemove (e : Event) : bool :=
  match callOf e with CacheRemove _ _ _ _ => true | _ => false end.

(** The cache operations that change what is stored: the sweep deletes
    the expired entries, the update inserts or overwrites one, the removal
    deletes one. *)
Definition isCacheWrite (e : Event) : bool :=
  isCacheSweep e || isCacheUpdate e || isCacheRemove e.

Definition isCacheCall (e : Event) : bool :=
  isCacheLookup e || isCacheWrite e.

(** The answer of the lookup, when the event is one. *)
Definition lookupAnswer (e : Event) : option (result UploadIdCacheEntry) :=
  match e with
  | existT _ (c, a) =>
      match c in Call X return X -> option (result UploadIdCacheEntry) with
      | CacheLookup _ _ _ _ => fun a => Some a
      | _ => fun _ => None
      end a
  end.

(** The cache cannot serve the operation that needs it: the lookup, whose
    answer decides between resume and fresh upload, fails with an error
    whose cause is not [errCacheEntryNotFound]. *)
Definition lookupFailure (e : Event) : option error :=
  match lookupAnswer e with
  | Some (Err err) =>
      if isErrCacheEntryNotFound (Cause err) then None else Some err
  | _ => None
  end.

(** The error a sweep, an update or a removal answers with. *)
Definition cacheWriteError (e : Event) : option error :=
  match e with
  | existT _ (c, a) =>
      match c in Call X return X -> option error with
      | CacheRemoveExpiredEntries _ => fun a => a
      | CacheUpdate _ _ _ _ _ => fun a => a
      | CacheRemove _ _ _ _ => fun a => a
      | _ => fun _ => None
      end a
  end.

Definition isFailedCacheWrite (e : Event) : bool :=
  match cacheWriteError e with Some _ => true | None => false end.

Definition isLoggerCall (e : Event) : bool :=
  match callOf e with
  | LoggerWarningf _ _ => true
  | LoggerErrorf _ _ => true
  | _ => false
  end.

(** The transfers. *)
Definition isResume (e : Event) : bool :=
  match callOf e with ResumeUploadResource _ _ _ _ _ _ => true | _ => false end.

Definition isUpload (e : Event) : bool :=
  match callOf e with UploadResource _ _ _ _ _ => true | _ => false end.

Definition isTransfer (e : Event) : bool := isResume e || isUpload e.

(** The upload id a [ResumeUploadResource] is called with. *)
Definition resumeToken (e : Event) : option string :=
  match callOf e with
  | ResumeUploadResource uploadId _ _ _ _ _ => Some uploadId
  | _ => None
  end.

(** The file a transfer is handed. *)
Definition transferContent (e : Event) : option File :=
  match callOf e with
  | ResumeUploadResource _ _ _ _ content _ => Some content
  | UploadResource _ _ _ content _ => Some content
  | _ => None
  end.

(** What the store answers a resume and a fresh upload with. *)
Definition resumeAnswer (e : Event) : option (result Z) :=
  match e with
  | existT _ (c, a) =>
      match c in Call X return X -> option (result Z) with
      | ResumeUploadResourceReturn => fun a => Some a
      | _ => fun _ => None
      end a
  end.

Definition uploadAnswer (e : Event) : option (result Z) :=
  match e with
  | existT _ (c, a) =>
      match c in Call X return X -> option (result Z) with
      | UploadResourceReturn => fun a => Some a
      | _ => fun _ => None
      end a
  end.

(** The store reports the transfer successful. *)
Definition reportsSuccess (e : Event) : bool :=
  match resumeAnswer e, uploadAnswer e with
  | Some (Ok _), _ => true
  | _, Some (Ok _) => true
  | _, _ => false
  end.

(** The first answer of its kind in a trace. *)
Fixpoint firstAnswer {A : Type} (f : Event -> option A) (t : list Event)
    : option A :=
  match t with
  | [] => None
  | e :: t' => match f e with Some a => Some a | None => firstAnswer f t' end
  end.

(** The file system. *)
Definition openAnswer (e : Event) : option (result File) :=
  match e with
  | existT _ (c, a) =>
      match c in Call X return X -> option (result File) with
      | OsOpen _ => fun a => Some a
      | _ => fun _ => None
      end a
  end.

Definition statAnswer (e : Event) : option (result Z) :=
  match e with
  | existT _ (c, a) =>
      match c in Call X return X -> option (result Z) with
      | FileStat => fun a => Some a
      | _ => fun _ => None
      end a
  end.

(** The registry. *)
Definition isHeadRequest (e : Event) : bool :=
  match callOf e with
  | HttpNewRequest method _ => String.eqb method "HEAD"
  | _ => false
  end.

Definition requestURL (e : Event) : option string :=
  match callOf e with
  | HttpNewRequest _ url => Some url
  | _ => None
  end.

Definition doAnswer (e : Event) : option (result Response) :=
  match e with
  | existT _ (c, a) =>
      match c in Call X return X -> option (result Response) with
      | HttpDo _ => fun a => Some a
      | _ => fun _ => None
      end a
  end.

Definition isRegistryCall (e : Event) : bool :=
  match callOf e with
  | HttpGet _ => true
  | HttpNewRequest _ _ => true
  | ModifyRequest _ _ => true
  | HttpDo _ => true
  | _ => false
  end.

(** The calls that move an image: to the local daemon, and to the store
    for the place to push to. *)
Definition isPushCall (e : Event) : bool :=
  match callOf e with
  | DockerResourceUploadInfo _ _ => true
  | NewEnvClient => true
  | ImageTag _ _ => true
  | ImagePush _ _ => true
  | DisplayJSONMessagesStream _ _ => true
  | _ => false
  end.

(** The image name and the digest registered with the store. *)
Definition registered (e : Event) : option (string * string) :=
  match callOf e with
  | AddDockerResource _ _ imageName digest => Some (imageName, digest)
  | _ => None
  end.

Definition parsed (e : Event) : option string :=
  match callOf e with
  | ParseNormalizedNamed s => Some s
  | _ => None
  end.

(** ** The events of the callback

    The events of the callback over the upload ids a transfer notifies,
    given the cache's answer to each update. *)
Definition updateEvents (c : UploadIdCache) (p : uploadResourceParams)
    (contentHash : list byte) (ids : list (string * option error))
    : list Event :=
  flat_map
    (fun ia =>
       event (CacheUpdate c ia.1 (charmId p) (resourceName p) contentHash) ia.2
       :: match ia.2 with
          | Some err =>
              [event (LoggerErrorf "cannot update uploadId cache: %v" err) tt]
          | None => []
          end)
    ids.

Definition callbackEvents (uploadIdCache : option UploadIdCache)
    (p : uploadResourceParams) (contentHash : list byte)
    (ids : list (string * option error)) : list Event :=
  match uploadIdCache with
  | Some c => updateEvents c p contentHash ids
  | None => []
  end.

Definition isCallbackEvent (e : Event) : bool :=
  isCacheUpdate e || isLoggerCall e.

(** The number of upload ids the transfers of a trace notify. *)
Definition notifications (e : Event) : nat :=
  match e with
  | existT _ (c, a) =>
      match c in Call X return X -> nat with
      | ResumeUploadResource _ _ _ _ _ _ => fun a => length a
      | UploadResource _ _ _ _ _ => fun a => length a
      | _ => fun _ => 0%nat
      end a
  end.

Fixpoint notified (t : list Event) : nat :=
  match t with
  | [] => 0%nat
  | e :: t' => (notifications e + notified t')%nat
  end.

(** The revision the store reports a transfer successful with. *)
Definition successAnswer (e : Event) : option Z :=
  match resumeAnswer e, uploadAnswer e with
  | Some (Ok rev), _ => Some rev
  | _, Some (Ok rev) => Some rev
  | _, _ => None
  end.

(** The error the store fails the last transfer of a call with: the one
    of the fresh upload when there is one, else the one of the resume. *)
Definition transferError (t : list Event) : option error :=
  match firstAnswer uploadAnswer t with
  | Some (Err err) => Some err
  | Some (Ok _) => None
  | None =>
      match firstAnswer resumeAnswer t with
      | Some (Err err) => Some err
      | _ => None
      end
  end.

(** The answers of the registry to the requests of a trace, and the URLs
    requested, in order. *)
Fixpoint doAnswers (t : list Event) : list (result Response) :=
  match t with
  | [] => []
  | e :: t' =>
      match doAnswer e with
      | Some r => r :: doAnswers t'
      | None => doAnswers t'
      end
  end.

Fixpoint requestURLs (t : list Event) : list string :=
  match t with
  | [] => []
  | e :: t' =>
      match requestURL e with
      | Some u => u :: requestURLs t'
      | None => requestURLs t'
      end
  end.

Definition manifestURL (ref : Named) (tagOrDigest : string) : string :=
  registryEndpointForReference ref ++ reference_Path ref ++ "/manifests/"
  ++ tagOrDigest.

Definition digestHeader (resp : Response) : string :=
  Header_Get (Header resp) "Docker-Content-Digest".

Definition versionHeader (resp : Response) : string :=
  Header_Get (Header resp) "Docker-Distribution-Api-Version".

(** The first response passes the checks of [imageDigestForReference]. *)
Definition validManifestResponse (resp : Response) : bool :=
  (StatusCode resp =? http_StatusOK)
  && strings_HasPrefix (versionHeader resp) "registry/2."
  && negb (String.eqb (digestHeader resp) "").

(** ** The upload-id cache

    Modelled from the spec: the upload-id cache ([NewUploadIdCache],
    [RemoveExpiredEntries], [Lookup], [Update], [Remove]) lives in a file of
    the repository that is not among the sources.  The spec has it map
    (artifact identity, resource name, content hash) to (upload identifier,
    timestamp): [RemoveExpired] deletes every entry whose age exceeds the
    expiry window; [Lookup] returns the matching entry, or the "not found"
    error if no unexpired entry matches exactly; [Update] inserts or
    overwrites the entry for the key with a fresh timestamp; [Remove]
    deletes the entry.  The upload code is proved against every
    environment; this model is the cache of the sample environment
    below. *)

#[export] Instance byte_eq_dec : EqDecision byte := Byte.byte_eq_dec.

#[export] Instance byte_countable : Countable byte :=
  inj_countable Byte.to_N Byte.of_N Byte.of_to_N.

Abbreviation cacheKey := (string * string * list byte)%type.

Definition expired (expiry now : Z) (entry : UploadIdCacheEntry) : bool :=
  expiry <? now - entryCreatedAt entry.

Definition cache_RemoveExpired (expiry now : Z)
    (store : gmap cacheKey UploadIdCacheEntry)
    : gmap cacheKey UploadIdCacheEntry :=
  filter (fun kv => expired expiry now kv.2 = false) store.

Definition cache_Lookup (expiry now : Z) (key : cacheKey)
    (store : gmap cacheKey UploadIdCacheEntry) : result UploadIdCacheEntry :=
  match store !! key with
  | Some entry =>
      if expired expiry now entry then Err errCacheEntryNotFound else Ok entry
  | None => Err errCacheEntryNotFound
  end.

Definition cache_Update (uploadId : string) (key : cacheKey) (now : Z)
    (store : gmap cacheKey UploadIdCacheEntry)
    : gmap cacheKey UploadIdCacheEntry :=
  <[key := mkEntry key.1.1 key.1.2 key.2 uploadId now]> store.

Definition cache_Remove (key : cacheKey)
    (store : gmap cacheKey UploadIdCacheEntry)
    : gmap cacheKey UploadIdCacheEntry :=
  delete key store.

(** ** A sample environment

    An environment to run the code on: the file the path names, the
    persisted cache with the clock, the answers of the store to a resume
    and to a fresh upload with the upload ids they notify, the answer of the
    reference parser, the successive responses of the registry, and the
    errors the cache and the store are to fail with.  [sStores] records the
    content of the cache after each operation that writes it. *)

Record Sample : Type := mkSample {
  sOpen : result File;
  sStat : result Z;
  sCache : gmap cacheKey UploadIdCacheEntry;
  sNow : Z;
  sSweepErr : option error;
  sLookupErr : option error;
  sUpdateErr : option error;
  sRemoveErr : option error;
  sStores : list (gmap cacheKey UploadIdCacheEntry);
  sResumeStarted : list string;
  sResume : result Z;
  sUploadStarted : list string;
  sUpload : result Z;
  sParse : result Named;
  sGet : result Response;
  sDo : list (result Response);
  sAdd : result Z;
  sInfo : result DockerInfo;
  sStream : list auxMessage * option error
}.

Definition withCache (s : Sample) (store : gmap cacheKey UploadIdCacheEntry)
    : Sample :=
  mkSample (sOpen s) (sStat s) store (sNow s) (sSweepErr s) (sLookupErr s)
           (sUpdateErr s) (sRemoveErr s) (sStores s ++ [store])
           (sResumeStarted s) (sResume s) (sUploadStarted s) (sUpload s)
           (sParse s) (sGet s) (sDo s) (sAdd s) (sInfo s) (sStream s).

Definition nextDo (s : Sample) : Sample :=
  mkSample (sOpen s) (sStat s) (sCache s) (sNow s) (sSweepErr s)
           (sLookupErr s) (sUpdateErr s) (sRemoveErr s) (sStores s)
           (sResumeStarted s) (sResume s) (sUploadStarted s) (sUpload s)
           (sParse s) (sGet s) (tail (sDo s)) (sAdd s) (sInfo s) (sStream s).

(** A cache operation that writes: it fails with the error to inject, or
    stores the new content. *)
Definition cacheWrite (fault : option error) (s : Sample)
    (store : gmap cacheKey UploadIdCacheEntry) : option error * Sample :=
  match fault with
  | Some err => (Some err, s)
  | None => (None, withCache s store)
  end.

Definition sample : Env Sample :=
  fun X c =>
    match c in Call X return Sample -> X * Sample with
    | CtxtAbsPath rel => fun s => (String.append "/home/user/" rel, s)
    | CtxtInfof _ => fun s => (tt, s)
    | CtxtQuiet => fun s => (true, s)
    | StdoutTerminal => fun s => (None, s)
    | OsOpen _ => fun s => (sOpen s, s)
    | FileStat => fun s => (sStat s, s)
    | FileClose => fun s => (tt, s)
    | CacheRemoveExpiredEntries c =>
        fun s => cacheWrite (sSweepErr s) s
                   (cache_RemoveExpired (cacheExpiryDuration c) (sNow s)
                                        (sCache s))
    | CacheLookup c charmId resourceName contentHash =>
        fun s => (match sLookupErr s with
                  | Some err => Err err
                  | None =>
                      cache_Lookup (cacheExpiryDuration c) (sNow s)
                        (charmId, resourceName, contentHash) (sCache s)
                  end, s)
    | CacheUpdate c uploadId charmId resourceName contentHash =>
        fun s => cacheWrite (sUpdateErr s) s
                   (cache_Update uploadId (charmId, resourceName, contentHash)
                                 (sNow s) (sCache s))
    | CacheRemove c charmId resourceName contentHash =>
        fun s => cacheWrite (sRemoveErr s) s
                   (cache_Remove (charmId, resourceName, contentHash)
                                 (sCache s))
    | LoggerWarningf _ _ => fun s => (tt, s)
    | LoggerErrorf _ _ => fun s => (tt, s)
    | LogPrintf _ _ _ => fun s => (tt, s)
    | NewProgressDisplay _ _ _ => fun s => (tt, s)
    | DisplayClose => fun s => (tt, s)
    | DisplayError _ => fun s => (tt, s)
    | FillerSetDisplay _ => fun s => (tt, s)
    | ResumeUploadResource _ _ _ _ _ _ => fun s => (sResumeStarted s, s)
    | ResumeUploadResourceReturn => fun s => (sResume s, s)
    | UploadResource _ _ _ _ _ => fun s => (sUploadStarted s, s)
    | UploadResourceReturn => fun s => (sUpload s, s)
    | DockerResourceUploadInfo _ _ => fun s => (sInfo s, s)
    | AddDockerResource _ _ _ _ => fun s => (sAdd s, s)
    | ParseNormalizedNamed _ => fun s => (sParse s, s)
    | HttpGet _ => fun s => (sGet s, s)
    | BodyClose => fun s => (tt, s)
    | HttpNewRequest _ _ => fun s => (None, s)
    | ModifyRequest _ req => fun s => (Ok req, s)
    | HttpDo _ =>
        fun s => (match sDo s with
                  | r :: _ => r
                  | [] => Err (errorString "connection refused")
                  end, nextDo s)
    | NewEnvClient => fun s => (None, s)
    | ImageTag _ _ => fun s => (None, s)
    | JsonMarshalAuthConfig _ _ => fun s => (Ok [], s)
    | ImagePush _ _ => fun s => (None, s)
    | DisplayJSONMessagesStream _ _ => fun s => (sStream s, s)
    end.

(** *** Sample data *)

Definition wordpress : uploadResourceParams :=
  mkParams {["data" := TypeFile; "image" := TypeDocker]}
           "cs:~who/wordpress-3" "data" "data.zip" "/home/user/.cache/charm".

Definition wordpressNoCache : uploadResourceParams :=
  mkParams {["data" := TypeFile; "image" := TypeDocker]}
           "cs:~who/wordpress-3" "data" "data.zip" "".

Definition dataZip : File := mkFile (bytes_of_string "PK data") 0 None None.

(** A disk that fails at the third byte. *)
Definition brokenDisk : File :=
  mkFile (bytes_of_string "abcd") 0
         (Some (2%nat, errorString "input/output error")) None.

(** A file that cannot be repositioned. *)
Definition pipeFile : File :=
  mkFile (bytes_of_string "abcd") 0 None (Some (errorString "illegal seek")).

Definition dataKey : cacheKey :=
  ("cs:~who/wordpress-3", "data", SHA256.Sum (contents dataZip)).

Definition otherKey : cacheKey :=
  ("cs:~who/mysql-7", "dump", SHA256.Sum []).

Definition response (code : Z) (status version digest : string) : Response :=
  mkResponse status code
    (Header_Set (Header_Set ∅ "Docker-Distribution-Api-Version" version)
                "Docker-Content-Digest" digest).

Definition unauthorized : Response :=
  mkResponse "401 Unauthorized" 401 ∅.

Definition dockerInfo : DockerInfo :=
  mkDockerInfo "registry.jujucharms.com/who/wordpress/image" "who" "secret".

(** The store accepts a fresh upload under the id "upload-2" and a resume
    as well; the registry answers as listed; the cache holds [store] at
    time [now]. *)
Definition world (store : gmap cacheKey UploadIdCacheEntry) (now : Z)
    (resume : result Z) (parse : result Named) (heads : list (result Response))
    : Sample :=
  mkSample (Ok dataZip) (Ok 7) store now None None None None []
           [] resume ["upload-2"] (Ok 5)
           parse (Ok unauthorized) heads (Ok 9) (Ok dockerInfo) ([], None).

Definition day : Z := 24 * time_Hour.

(** An entry of another charm, three days old, and the pending upload of
    [dataZip], one hour old. *)
Definition staleStore : gmap cacheKey UploadIdCacheEntry :=
  {[ otherKey := mkEntry "cs:~who/mysql-7" "dump" (SHA256.Sum []) "upload-0" 0 ]}.

Definition pendingStore : gmap cacheKey UploadIdCacheEntry :=
  {[ dataKey := mkEntry "cs:~who/wordpress-3" "data"
                        (SHA256.Sum (contents dataZip)) "upload-1"
                        (3 * day - time_Hour) ]}.

Definition taggedRef : Named :=
  mkNamed "docker.io" "library/ubuntu" (Some "18.04") None.

Definition canonicalRef : Named :=
  mkNamed "docker.io" "library/ubuntu" None (Some "sha256:aaaa").

Definition externalImage : uploadResourceParams :=
  mkParams {["data" := TypeFile; "image" := TypeDocker]}
           "cs:~who/wordpress-3" "image" "external::ubuntu:18.04" "".

Definition localImage : uploadResourceParams :=
  mkParams {["data" := TypeFile; "image" := TypeDocker]}
           "cs:~who/wordpress-3" "image" "ubuntu:18.04" "".

Definition badImage : uploadResourceParams :=
  mkParams {["data" := TypeFile; "image" := TypeDocker]}
           "cs:~who/wordpress-3" "image" "external::Ubuntu" "".

(** The pending upload of [dataZip] is in the cache; the store has
    forgotten it. *)
Definition pendingEntry : UploadIdCacheEntry :=
  mkEntry "cs:~who/wordpress-3" "data" (SHA256.Sum (contents dataZip))
          "upload-1" (3 * day - time_Hour).

Definition uploadNotFound : error :=
  ErrgoErr "upload not found" (Some ErrUploadNotFound) None.

Definition forgotten : Sample :=
  world pendingStore (3 * day) (Err uploadNotFound)
        (Err (errorString "not an image")) [].

(** Nothing of [dataZip] is pending; the store accepts a fresh upload
    under the id "upload-2". *)
Definition freshUpload : Sample :=
  mkSample (Ok dataZip) (Ok 7) staleStore (3 * day) None None None None []
           ["upload-2"] (Ok 4) [] (Ok 5)
           (Err (errorString "not an image")) (Ok unauthorized) [] (Ok 9)
           (Ok dockerInfo) ([], None).

Definition freshEntry : UploadIdCacheEntry :=
  mkEntry "cs:~who/wordpress-3" "data" (SHA256.Sum (contents dataZip))
          "upload-2" (3 * day).

(** The cache fails every write; the store accepts the fresh upload. *)
Definition diskFull : error := errorString "no space left on device".

Definition faultyCache : Sample :=
  mkSample (Ok dataZip) (Ok 7) staleStore (3 * day)
           (Some diskFull) None (Some diskFull) (Some diskFull) []
           ["upload-2"] (Ok 4) [] (Ok 5)
           (Err (errorString "not an image")) (Ok unauthorized) [] (Ok 9)
           (Ok dockerInfo) ([], None).

(** The registry, asked about a reference. *)
Definition registry (parse : result Named) (heads : list (result Response))
    : Sample :=
  world ∅ 0 (Ok 4) parse heads.

Definition ok200 (digest : string) : Response :=
  response 200 "200 OK" "registry/2.0" digest.

Definition notFound404 : Response :=
  response 404 "404 Not Found" "registry/2.0" "".

(** The digests the registry answered with, response by response. *)
Definition digestsAnswered (t : list Event) : list (option string) :=
  map (fun r => match r with
                | Ok resp => Some (digestHeader resp)
                | Err _ => None
                end) (doAnswers t).


(** The registry serves the tag and, by digest, something else. *)
Definition inconsistentRegistry : Sample :=
  registry (Ok taggedRef) [Ok (ok200 "sha256:aaaa"); Ok (ok200 "sha256:bbbb")].

(** The registry reports another digest than the reference carries. *)
Definition otherDigestRegistry : Sample :=
  registry (Ok canonicalRef) [Ok (ok200 "sha256:bbbb")].

Definition isAddDockerResource (e : Event) : bool :=
  match callOf e with AddDockerResource _ _ _ _ => true | _ => false end.

(** The reference parser rejects the name. *)
Definition mustBeLowercase : error :=
  errorString "invalid reference format: repository name must be lowercase".

Definition rejectingParser : Sample := registry (Err mustBeLowercase) [].

Definition ubuntu : Named :=
  mkNamed "docker.io" "library/ubuntu" (Some "18.04") None.

(** The registry serves ubuntu:18.04 under one digest. *)
Definition ubuntuRegistry : Sample :=
  registry (Ok ubuntu) [Ok (ok200 "sha256:aaaa"); Ok (ok200 "sha256:aaaa")].

(** The store still knows the pending upload and accepts its resume. *)
Definition resumable : Sample :=
  world pendingStore (3 * day) (Ok 4) (Err (errorString "not an image")) [].

(** The local daemon pushes the image and reports its digest. *)
Definition pushed : Sample :=
  mkSample (Ok dataZip) (Ok 7) ∅ 0 None None None None []
           [] (Ok 4) [] (Ok 5)
           (Ok ubuntu) (Ok unauthorized) [] (Ok 9) (Ok dockerInfo)
           ([mkAux (Some "latest") (Some "sha256:cccc") (Some 1234) None],
            None).

(** ** More readers of traces *)

(** The file system and the command context. *)
Definition isFileClose (e : Event) : bool :=
  match callOf e with FileClose => true | _ => false end.

Definition isOsOpen (e : Event) : bool :=
  match callOf e with OsOpen _ => true | _ => false end.

Definition absPathArg (e : Event) : option string :=
  match callOf e with CtxtAbsPath rel => Some rel | _ => None end.

Definition absPathAnswer (e : Event) : option string :=
  match e with
  | existT _ (c, a) =>
      match c in Call X return X -> option string with
      | CtxtAbsPath _ => fun a => Some a
      | _ => fun _ => None
      end a
  end.

Definition openedPath (e : Event) : option string :=
  match callOf e with OsOpen path => Some path | _ => None end.

Definition quietAnswer (e : Event) : option bool :=
  match e with
  | existT _ (c, a) =>
      match c in Call X return X -> option bool with
      | CtxtQuiet => fun a => Some a
      | _ => fun _ => None
      end a
  end.

(** What the context is told to print. *)
Definition isInfof (e : Event) : bool :=
  match callOf e with CtxtInfof _ => true | _ => false end.

Definition infoMessage (e : Event) : option string :=
  match callOf e with CtxtInfof msg => Some msg | _ => None end.

(** The progress display. *)
Definition isNewDisplay (e : Event) : bool :=
  match callOf e with NewProgressDisplay _ _ _ => true | _ => false end.

Definition isDisplayClose (e : Event) : bool :=
  match callOf e with DisplayClose => true | _ => false end.

Definition isDisplayError (e : Event) : bool :=
  match callOf e with DisplayError _ => true | _ => false end.

Definition displayedError (e : Event) : option error :=
  match callOf e with DisplayError err => Some err | _ => None end.

(** [filler.setDisplay(d)] is [isSetDisplay true], [filler.setDisplay(nil)]
    is [isSetDisplay false]. *)
Definition isSetDisplay (on : bool) (e : Event) : bool :=
  match callOf e with FillerSetDisplay set => Bool.eqb set on | _ => false end.

(** The name, the quiet flag and the size a display is created with. *)
Definition displayArgs (e : Event) : option (string * bool * Z) :=
  match callOf e with
  | NewProgressDisplay name quiet size => Some (name, quiet, size)
  | _ => None
  end.

(** The cache a cache operation is called on, and the key (charm id,
    resource name, content hash) of a lookup, an update or a removal. *)
Definition cacheOf (e : Event) : option UploadIdCache :=
  match callOf e with
  | CacheRemoveExpiredEntries c => Some c
  | CacheLookup c _ _ _ => Some c
  | CacheUpdate c _ _ _ _ => Some c
  | CacheRemove c _ _ _ => Some c
  | _ => None
  end.

Definition cacheKeyOf (e : Event) : option cacheKey :=
  match callOf e with
  | CacheLookup _ charmId resourceName contentHash =>
      Some (charmId, resourceName, contentHash)
  | CacheUpdate _ _ charmId resourceName contentHash =>
      Some (charmId, resourceName, contentHash)
  | CacheRemove _ charmId resourceName contentHash =>
      Some (charmId, resourceName, contentHash)
  | _ => None
  end.

(** The upload id an update stores, and the upload ids a transfer
    notifies. *)
Definition updatedId (e : Event) : option string :=
  match callOf e with
  | CacheUpdate _ uploadId _ _ _ => Some uploadId
  | _ => None
  end.

Definition notifiedBy (e : Event) : list string :=
  match e with
  | existT _ (c, a) =>
      match c in Call X return X -> list string with
      | ResumeUploadResource _ _ _ _ _ _ => fun a => a
      | UploadResource _ _ _ _ _ => fun a => a
      | _ => fun _ => []
      end a
  end.

Fixpoint updatedIds (t : list Event) : list string :=
  match t with
  | [] => []
  | e :: t' =>
      match updatedId e with
      | Some id => id :: updatedIds t'
      | None => updatedIds t'
      end
  end.

Fixpoint notifiedIds (t : list Event) : list string :=
  match t with
  | [] => []
  | e :: t' => notifiedBy e ++ notifiedIds t'
  end.

(** The charm id, the resource name, the path and the size a transfer is
    called with, and the file a [ResumeUploadResource] is handed. *)
Definition transferArgs (e : Event) : option (string * string * string * Z) :=
  match callOf e with
  | ResumeUploadResource _ charmId resourceName path _ size =>
      Some (charmId, resourceName, path, size)
  | UploadResource charmId resourceName path _ size =>
      Some (charmId, resourceName, path, size)
  | _ => None
  end.

Definition resumeContent (e : Event) : option File :=
  match callOf e with
  | ResumeUploadResource _ _ _ _ content _ => Some content
  | _ => None
  end.

(** The registry. *)
Definition isHttpGet (e : Event) : bool :=
  match callOf e with HttpGet _ => true | _ => false end.

Definition getURL (e : Event) : option string :=
  match callOf e with HttpGet url => Some url | _ => None end.

Definition getAnswer (e : Event) : option (result Response) :=
  match e with
  | existT _ (c, a) =>
      match c in Call X return X -> option (result Response) with
      | HttpGet _ => fun a => Some a
      | _ => fun _ => None
      end a
  end.

Definition isBodyClose (e : Event) : bool :=
  match callOf e with BodyClose => true | _ => false end.

(** A response has been received: its body is open. *)
Definition opensBody (e : Event) : bool :=
  match getAnswer e, doAnswer e with
  | Some (Ok _), _ => true
  | _, Some (Ok _) => true
  | _, _ => false
  end.

(** The authorizer and the request of a [ModifyRequest], the request it
    answers with, and the request sent. *)
Definition modifyArgs (e : Event) : option (RequestModifier * Request) :=
  match callOf e with
  | ModifyRequest m req => Some (m, req)
  | _ => None
  end.

Definition modifyAnswer (e : Event) : option (result Request) :=
  match e with
  | existT _ (c, a) =>
      match c in Call X return X -> option (result Request) with
      | ModifyRequest _ _ => fun a => Some a
      | _ => fun _ => None
      end a
  end.

Definition sentRequest (e : Event) : option Request :=
  match callOf e with HttpDo req => Some req | _ => None end.

Definition newRequestArgs (e : Event) : option (string * string) :=
  match callOf e with
  | HttpNewRequest method url => Some (method, url)
  | _ => None
  end.

Definition loggedRequest (e : Event)
    : option (string * string * gmap string (list string)) :=
  match callOf e with
  | LogPrintf method url h => Some (method, url, h)
  | _ => None
  end.

(** The requests the authorizer let through. *)
Fixpoint authorized (t : list Event) : list Request :=
  match t with
  | [] => []
  | e :: t' =>
      match modifyAnswer e with
      | Some (Ok req) => req :: authorized t'
      | _ => authorized t'
      end
  end.

(** The requests built and handed to the authorizer, and the requests
    sent, in order. *)
Fixpoint built (t : list Event) : list Request :=
  match t with
  | [] => []
  | e :: t' =>
      match modifyArgs e with
      | Some (_, req) => req :: built t'
      | None => built t'
      end
  end.

Fixpoint sentRequests (t : list Event) : list Request :=
  match t with
  | [] => []
  | e :: t' =>
      match sentRequest e with
      | Some req => req :: sentRequests t'
      | None => sentRequests t'
      end
  end.

Definition acceptManifestV2 : gmap string (list string) :=
  Header_Set ∅ "Accept" "application/vnd.docker.distribution.manifest.v2+json".

(** The tag or digest [referenceTagOrDigest] chooses, case by case. *)
Definition tagOrDigest (ref : Named) : string :=
  match refTag ref, refDigest ref with
  | Some tag, _ => tag
  | None, Some digest => digest
  | None, None => "latest"
  end.

(** The local docker daemon and the store, on the push. *)
Definition infoAnswer (e : Event) : option (result DockerInfo) :=
  match e with
  | existT _ (c, a) =>
      match c in Call X return X -> option (result DockerInfo) with
      | DockerResourceUploadInfo _ _ => fun a => Some a
      | _ => fun _ => None
      end a
  end.

Definition isUploadInfo (e : Event) : bool :=
  match callOf e with DockerResourceUploadInfo _ _ => true | _ => false end.

Definition infoArgs (e : Event) : option (string * string) :=
  match callOf e with
  | DockerResourceUploadInfo charmId resourceName =>
      Some (charmId, resourceName)
  | _ => None
  end.

Definition tagArgs (e : Event) : option (string * string) :=
  match callOf e with
  | ImageTag source target => Some (source, target)
  | _ => None
  end.

Definition marshalArgs (e : Event) : option (string * string) :=
  match callOf e with
  | JsonMarshalAuthConfig username password => Some (username, password)
  | _ => None
  end.

Definition marshalAnswer (e : Event) : option (result (list byte)) :=
  match e with
  | existT _ (c, a) =>
      match c in Call X return X -> option (result (list byte)) with
      | JsonMarshalAuthConfig _ _ => fun a => Some a
      | _ => fun _ => None
      end a
  end.

Definition pushArgs (e : Event) : option (string * list byte) :=
  match callOf e with
  | ImagePush image authData => Some (image, authData)
  | _ => None
  end.


Definition streamAnswer (e : Event)
    : option (list auxMessage * option error) :=
  match e with
  | existT _ (c, a) =>
      match c in Call X return X -> option (list auxMessage * option error) with
      | DisplayJSONMessagesStream _ _ => fun a => Some a
      | _ => fun _ => None
      end a
  end.


Definition isTerminalProbe (e : Event) : bool :=
  match callOf e with StdoutTerminal => true | _ => false end.

Definition registrationArgs (e : Event)
    : option (string * string * string * string) :=
  match callOf e with
  | AddDockerResource charmId resourceName imageName digest =>
      Some (charmId, resourceName, imageName, digest)
  | _ => None
  end.

Definition registrationAnswer (e : Event) : option (result Z) :=
  match e with
  | existT _ (c, a) =>
      match c in Call X return X -> option (result Z) with
      | AddDockerResource _ _ _ _ => fun a => Some a
      | _ => fun _ => None
      end a
  end.

(** The status the aux callback leaves after the messages [ms]: each
    message overwrites the fields it carries. *)
Definition finalStatusOf (ms : list auxMessage) : finalStatusT :=
  fold_left (fun s m => json_Unmarshal m s) ms (mkFinalStatus "" "" 0).

(** The events of the aux callback over the messages of a push. *)
Definition auxEvents (ms : list auxMessage) : list Event :=
  flat_map
    (fun m => match auxErr m with
              | Some err =>
                  [event (LoggerErrorf "cannot unmarshal aux data: %v" err) tt]
              | None => []
              end)
    ms.

(** The calls of the file upload, and those of the docker upload. *)
Definition isFileCall (e : Event) : bool :=
  match callOf e with
  | CtxtAbsPath _ => true
  | CtxtInfof _ => true
  | OsOpen _ => true
  | FileStat => true
  | FileClose => true
  | NewProgressDisplay _ _ _ => true
  | DisplayClose => true
  | DisplayError _ => true
  | FillerSetDisplay _ => true
  | _ => false
  end || isCacheCall e || isTransfer e.

Definition isDockerCall (e : Event) : bool :=
  match callOf e with
  | StdoutTerminal => true
  | ParseNormalizedNamed _ => true
  | AddDockerResource _ _ _ _ => true
  | BodyClose => true
  | LogPrintf _ _ _ => true
  | JsonMarshalAuthConfig _ _ => true
  | _ => false
  end || isRegistryCall e || isPushCall e.

(** ** The --auth flag (cmd.go) *)

(** [strings.Index] and [strings.SplitN] of the Go standard library.
    [genSplit] is the loop of [strings.SplitN] for a separator that is not
    empty, run for at most [splits] separators: the text before each
    separator found, and last the unsplit remainder. *)
Definition strings_Index (s sep : string) : option nat := String.index 0 sep s.

Fixpoint genSplit (splits : nat) (s sep : string) : list string :=
  match splits with
  | O => [s]
  | S splits' =>
      match strings_Index s sep with
      | None => [s]
      | Some m =>
          String.substring 0 m s
          :: genSplit splits'
               (String.substring (m + String.length sep)
                  (String.length s - (m + String.length sep)) s)
               sep
      end
  end.

(** [strings.SplitN(s, sep, n)] for [n >= 0] and [sep] not empty: no more
    than [n] substrings, and no more than [len(s) + 1]. *)
Definition strings_SplitN (s sep : string) (n : nat) : list string :=
  match n with
  | O => []
  | S n' => genSplit (n' `min` String.length s) s sep
  end.

Record authInfo : Type := mkAuthInfo {
  username : string;
  password : string
}.

(** [Set] implements [gnuflag.Value.Set] by validating the authentication
    flag: the receiver after the call, and the error. *)
Definition authInfo_Set (a : authInfo) (s : string)
    : authInfo * option error :=
  if String.eqb s "" then (mkAuthInfo "" "", None)
  else
    match strings_SplitN s ":" 2 with
    | [user; passwd] =>
        if String.eqb user "" then (a, Some (errgo_New "empty username"))
        else (mkAuthInfo user passwd, None)
    | _ =>
        (a, Some (errgo_New ("invalid auth credentials: expected "
                             ++ quoted "user:passwd")))
    end.

(** [String] implements [gnuflag.Value.String]. *)
Definition authInfo_String (a : authInfo) : string :=
  if String.eqb (username a) "" && String.eqb (password a) "" then ""
  else username a ++ ":" ++ password a.

Definition hasColon (s : string) : bool :=
  match strings_Index s ":" with Some _ => true | None => false end.

(** *** Sample data *)

Definition bothRef : Named :=
  mkNamed "docker.io" "library/ubuntu" (Some "18.04") (Some "sha256:aaaa").

Definition bareRef : Named := mkNamed "quay.io" "coreos/etcd" None None.


(** The registry cannot be reached. *)
Definition noSuchHost : error := errorString "dial tcp: no such host".

Definition unreachableRegistry : Sample :=
  mkSample (Ok dataZip) (Ok 7) ∅ 0 None None None None []
           [] (Ok 4) [] (Ok 5)
           (Ok ubuntu) (Err noSuchHost) [] (Ok 9) (Ok dockerInfo) ([], None).

(** The registry serves the tag of [bothRef] under another digest than
    the reference carries. *)
Definition bothRegistry : Sample :=
  registry (Ok bothRef) [Ok (ok200 "sha256:bbbb")].

(** The push: a message that fails to unmarshal between two that carry a
    digest. *)
Definition garbled : error := errorString "unexpected end of JSON input".

Definition pushMessages : list auxMessage :=
  [ mkAux (Some "latest") (Some "sha256:cccc") (Some 1234) None;
    mkAux None None None (Some garbled);
    mkAux None (Some "sha256:dddd") None None ].

Definition pushedTwice : Sample :=
  mkSample (Ok dataZip) (Ok 7) ∅ 0 None None None None []
           [] (Ok 4) [] (Ok 5)
           (Ok ubuntu) (Ok unauthorized) [] (Ok 9) (Ok dockerInfo)
           (pushMessages, None).

(** * Properties

    ** crypto/sha256: test vectors *)

Example sha256_constants :
  nth 0 SHA256._K 0 = 0x428a2f98 /\ nth 63 SHA256._K 0 = 0xc67178f2 /\
  SHA256.h0 SHA256.init = 0x6a09e667 /\ SHA256.h7 SHA256.init = 0x5be0cd19.
Proof. vm_compute. repeat split; reflexivity. Qed.

Example sha256_empty :
  SHA256.hex (SHA256.Sum []) =
  "e3b0c44298fc1c149afbf4c8996fb92427ae41e4649b934ca495991b7852b855"%string.
Proof. vm_compute. reflexivity. Qed.

Example sha256_abc :
  SHA256.hex (SHA256.Sum (bytes_of_string "abc")) =
  "ba7816bf8f01cfea414140de5dae2223b00361a396177a9cb410ff61f20015ad"%string.
Proof. vm_compute. reflexivity. Qed.

Example sha256_two_blocks :
  SHA256.hex (SHA256.Sum (bytes_of_string
    "abcdbcdecdefdefgefghfghighijhijkijkljklmklmnlmnomnopnopq")) =
  "248d6a61d20638b8e5c026930c3e6039a33ce45964ff2167f6ecedd419db06c1"%string.
Proof. vm_compute. reflexivity. Qed.

Example sha256_a120 :
  SHA256.hex (SHA256.Sum (repeat Byte.x61 120)) =
  "2f3d335432c70b580af0e8e1b3674a7c020d683aa5f73aaaedfdc55af904c21c"%string.
Proof. vm_compute. reflexivity. Qed.

(** ** Hashing a file *)

Lemma copyBufSize_pos : copyBufSize <> 0%nat.
Proof. unfold copyBufSize. discriminate. Qed.

Lemma setOffset_same (f : File) : setOffset f (offset f) = f.
Proof. by destruct f. Qed.

Lemma SHA256_Sum_length (msg : list byte) :
  length (SHA256.Sum msg) = SHA256.Size.
Proof. reflexivity. Qed.

Lemma take_length_take {A : Type} (n : nat) (l : list A) :
  take n l = take (length (take n l)) l.
Proof.
  rewrite length_take. destruct (decide (n <= length l)%nat).
  - by rewrite Nat.min_l.
  - rewrite Nat.min_r by lia. rewrite !take_ge; [done|lia..].
Qed.

(** One read of a file without fault ahead. *)
Lemma File_Read_ok (n : nat) (f : File) :
  n <> 0%nat -> readFault f = None ->
  File_Read n f =
    match take n (drop (offset f) (contents f)) with
    | [] => ([], Some io_EOF, f)
    | chunk => (chunk, None, setOffset f (offset f + length chunk))
    end.
Proof.
  intros Hn Hf. unfold File_Read. destruct n as [|n]; [done|]. by rewrite Hf.
Qed.

Lemma io_Copy_file_ok (fuel : nat) (h : list byte) (f : File) :
  readFault f = None ->
  (length (contents f) - offset f < fuel)%nat ->
  io_Copy fuel h f =
    Some (h ++ drop (offset f) (contents f), None,
          setOffset f (offset f `max` length (contents f))).
Proof.
  revert h f. induction fuel as [|fuel IH]; intros h f Hf Hfuel; [lia|].
  cbn [io_Copy Read File_ReadSeeker].
  rewrite (File_Read_ok _ _ copyBufSize_pos Hf).
  destruct (take copyBufSize (drop (offset f) (contents f))) as [|b chunk] eqn:Hchunk.
  - assert (drop (offset f) (contents f) = []) as Hd.
    { destruct (drop (offset f) (contents f)); [done|].
      pose proof copyBufSize_pos. destruct copyBufSize; [done|]. discriminate. }
    rewrite Hd. cbn. f_equal. f_equal.
    apply (f_equal length) in Hd. rewrite length_drop in Hd. cbn in Hd.
    rewrite Nat.max_l by lia. by rewrite setOffset_same.
  - remember (b :: chunk) as c eqn:Hc.
    assert (length c <= length (contents f) - offset f)%nat as Hlen.
    { rewrite <- Hchunk, length_take, length_drop. lia. }
    assert (0 < length c)%nat as Hpos by (rewrite Hc; cbn; lia).
    clear Hc.
    cbv zeta. cbn beta iota. rewrite IH; cbn [setOffset readFault contents offset]; [|done|lia].
    f_equal. f_equal; [f_equal|].
    + rewrite <- app_assoc. f_equal.
      rewrite <- (take_drop (length c) (drop (offset f) (contents f))).
      rewrite drop_drop. f_equal.
      rewrite <- Hchunk. apply take_length_take.
    + unfold setOffset. cbn. f_equal. lia.
Qed.

(** One read of a file with a fault ahead at byte [k]. *)
Lemma File_Read_fault (n : nat) (f : File) (k : nat) (err : error) :
  n <> 0%nat -> readFault f = Some (k, err) ->
  (offset f <= k <= length (contents f))%nat ->
  File_Read n f =
    if (offset f =? k)%nat then ([], Some err, f)
    else
      let chunk := take (n `min` (k - offset f))
                        (drop (offset f) (contents f)) in
      (chunk, None, setOffset f (offset f + n `min` (k - offset f))).
Proof.
  intros Hn Hf Hk. unfold File_Read, readable. destruct n as [|n]; [done|].
  rewrite Hf. destruct (Nat.eqb_spec (offset f) k) as [Heq|Hne]; [done|].
  rewrite (proj2 (Nat.leb_le (offset f) k)) by lia. cbv zeta.
  set (m := (S n `min` (k - offset f))%nat).
  assert (length (take m (drop (offset f) (contents f))) = m) as Hlen.
  { rewrite length_take, length_drop. lia. }
  assert (0 < m)%nat as Hm by lia.
  clearbody m.
  destruct (take m (drop (offset f) (contents f))) as [|b chunk] eqn:Hchunk.
  - cbn in Hlen. lia.
  - by rewrite Hlen.
Qed.

Lemma io_Copy_file_fault (fuel : nat) (h : list byte) (f : File)
    (k : nat) (err : error) :
  readFault f = Some (k, err) ->
  (offset f <= k <= length (contents f))%nat ->
  (k - offset f < fuel)%nat ->
  io_Copy fuel h f =
    Some (h ++ take (k - offset f) (drop (offset f) (contents f)),
          if isEOF err then None else Some err,
          setOffset f k).
Proof.
  revert h f. induction fuel as [|fuel IH]; intros h f Hf Hk Hfuel; [lia|].
  cbn [io_Copy Read File_ReadSeeker].
  rewrite (File_Read_fault _ _ _ _ copyBufSize_pos Hf Hk).
  destruct (Nat.eqb_spec (offset f) k) as [Heq|Hne].
  - rewrite <- Heq, Nat.sub_diag, take_0, setOffset_same. done.
  - cbv zeta. cbn beta iota.
    set (m := (copyBufSize `min` (k - offset f))%nat).
    assert (0 < m <= k - offset f)%nat as Hm.
    { pose proof copyBufSize_pos. lia. }
    rewrite IH; cbn [setOffset readFault contents offset]; [|exact Hf|lia..].
    f_equal. f_equal. f_equal.
    rewrite <- app_assoc. f_equal.
    rewrite <- drop_drop, take_take_drop. f_equal. lia.
Qed.

(** Every successful read moves the position forward. *)
Lemma File_Read_progress (n : nat) (f f' : File) (buf : list byte) :
  n <> 0%nat -> File_Read n f = (buf, None, f') ->
  contents f' = contents f /\
  (offset f < offset f' <= length (contents f))%nat.
Proof.
  intros Hn. unfold File_Read. destruct n as [|n]; [done|].
  assert (forall m, match take m (drop (offset f) (contents f)) with
           | [] => ([], Some io_EOF, f)
           | b :: c => (b :: c, None, setOffset f (offset f + length (b :: c)))
           end = (buf, None, f') ->
         contents f' = contents f /\
         (offset f < offset f' <= length (contents f))%nat) as Hstep.
  { intros m.
    destruct (take m (drop (offset f) (contents f))) as [|b c] eqn:Hc; [done|].
    intros [= <- <-]. split; [done|]. cbn [setOffset offset].
    apply (f_equal length) in Hc. rewrite length_take, length_drop in Hc.
    cbn in *. lia. }
  destruct (readFault f) as [[k err]|]; [|apply Hstep].
  destruct (offset f =? k)%nat; [done|apply Hstep].
Qed.

(** The copy of a file ends within [fileFuel]. *)
Lemma io_Copy_file_total (fuel : nat) (h : list byte) (f : File) :
  (length (contents f) - offset f < fuel)%nat ->
  is_Some (io_Copy fuel h f).
Proof.
  revert h f. induction fuel as [|fuel IH]; intros h f Hfuel; [lia|].
  cbn [io_Copy Read File_ReadSeeker].
  destruct (File_Read copyBufSize f) as [[buf [e|]] f'] eqn:Hread; [done|].
  apply File_Read_progress in Hread as [Hc Ho]; [|apply copyBufSize_pos].
  apply IH. rewrite Hc. lia.
Qed.

Lemma readSeekerSHA256_file_fuel (f : File) :
  readSeekerSHA256 (fileFuel f) f = Some (readSeekerSHA256_file f).
Proof.
  unfold readSeekerSHA256_file, readSeekerSHA256.
  destruct (io_Copy_file_total (fileFuel f) [] f) as [[[hs e] f'] ->].
  { unfold fileFuel. lia. }
  destruct e; [done|]. by destruct (Seek 0 0 f') as [[]].
Qed.

(** C3, as amended.  For a file whose reads and seek succeed,
    [readSeekerSHA256] returns the SHA-256 digest, 32 bytes long, of the
    bytes from the read position to the end, which is the entire content
    when the file is at its start, and leaves the read position at the
    start.  When a read fails, it returns the masked error and leaves the
    read position where the read failed; when the seek fails, it returns the
    masked error and leaves the read position at the end: the position is
    reset on the success path only. *)
Theorem readSeekerSHA256_resets_on_success (f : File) :
  (readFault f = None -> seekFault f = None ->
     readSeekerSHA256 (fileFuel f) f =
       Some (Ok (SHA256.Sum (drop (offset f) (contents f))), setOffset f 0)
     /\ length (SHA256.Sum (drop (offset f) (contents f))) = 32%nat
     /\ (offset f = 0%nat ->
         drop (offset f) (contents f) = contents f))
  /\ (forall k err,
        readFault f = Some (k, err) ->
        (offset f <= k <= length (contents f))%nat -> isEOF err = false ->
        readSeekerSHA256 (fileFuel f) f =
          Some (Err (errgo_Mask err), setOffset f k))
  /\ (forall err,
        readFault f = None -> seekFault f = Some err ->
        readSeekerSHA256 (fileFuel f) f =
          Some (Err (errgo_Mask err),
                setOffset f (offset f `max` length (contents f)))).
Proof.
  split; [|split].
  - intros Hread Hseek. split; [|split].
    + unfold readSeekerSHA256.
      rewrite io_Copy_file_ok by (done || unfold fileFuel; lia).
      cbn [Seek File_ReadSeeker]. unfold File_Seek.
      cbn [seekFault setOffset contents offset readFault].
      by rewrite Hseek.
    + apply SHA256_Sum_length.
    + by intros ->.
  - intros k err Hread Hk Herr. unfold readSeekerSHA256.
    rewrite (io_Copy_file_fault _ _ _ k err) by (done || unfold fileFuel; lia).
    by rewrite Herr.
  - intros err Hread Hseek. unfold readSeekerSHA256.
    rewrite io_Copy_file_ok by (done || unfold fileFuel; lia).
    cbn [Seek File_ReadSeeker]. unfold File_Seek.
    cbn [seekFault setOffset contents offset readFault].
    by rewrite Hseek.
Qed.

Lemma readSeekerSHA256_resets_on_success_witness :
  readSeekerSHA256 (fileFuel dataZip) dataZip =
    Some (Ok (SHA256.Sum (contents dataZip)), dataZip)
  /\ readSeekerSHA256 (fileFuel brokenDisk) brokenDisk =
       Some (Err (errgo_Mask (errorString "input/output error")),
             setOffset brokenDisk 2)
  /\ readSeekerSHA256 (fileFuel pipeFile) pipeFile =
       Some (Err (errgo_Mask (errorString "illegal seek")),
             setOffset pipeFile 4).
Proof.
  split; [|split].
  - exact (proj1 (proj1 (readSeekerSHA256_resets_on_success dataZip)
                        eq_refl eq_refl)).
  - apply (proj1 (proj2 (readSeekerSHA256_resets_on_success brokenDisk))
                 2%nat (errorString "input/output error")).
    + reflexivity.
    + cbn. lia.
    + reflexivity.
  - exact (proj2 (proj2 (readSeekerSHA256_resets_on_success pipeFile))
                 (errorString "illegal seek") eq_refl eq_refl).
Defined.

(** C3, as stated, fails: on a disk that fails at the third byte the
    hasher returns the error and leaves the read position at byte 2. *)
Lemma readSeekerSHA256_failure_leaves_position :
  readSeekerSHA256 (fileFuel brokenDisk) brokenDisk =
    Some (Err (errgo_Mask (errorString "input/output error")),
          setOffset brokenDisk 2)
  /\ offset (setOffset brokenDisk 2) <> 0%nat.
Proof. split; [vm_compute; reflexivity | discriminate]. Qed.

(** ** Programs and traces *)

Lemma wp_mono {R : Type} (p : Prog R) (Q Q' : list Event -> R -> Prop) :
  (forall t r, Q t r -> Q' t r) -> wp p Q -> wp p Q'.
Proof.
  revert Q Q'. induction p as [r|X c k IH]; intros Q Q' HQ; cbn.
  - apply HQ.
  - intros Hk a. eapply IH; [|apply Hk]. intros t r. apply HQ.
Qed.

Lemma wp_bind {A B : Type} (m : Prog A) (k : A -> Prog B)
    (Q : list Event -> B -> Prop) :
  wp m (fun t a => wp (k a) (fun t' b => Q (t ++ t') b)) -> wp (bind m k) Q.
Proof.
  revert Q. induction m as [a|X c k' IH]; intros Q; cbn.
  - done.
  - intros Hk a. apply IH, Hk.
Qed.

(** What [wp] establishes holds of every run. *)
Lemma run_wp {W R : Type} (env : Env W) (p : Prog R) (w : W)
    (Q : list Event -> R -> Prop) :
  wp p Q -> Q (traceOf (run env p w)) (resultOf (run env p w)).
Proof.
  revert w Q. induction p as [r|X c k IH]; intros w Q; cbn.
  - done.
  - intros Hk. destruct (env X c w) as [a w1] eqn:Ha.
    specialize (IH a w1 _ (Hk a)).
    destruct (run env (k a) w1) as [[r w2] t]. exact IH.
Qed.

Lemma count_app (P : Event -> bool) (t1 t2 : list Event) :
  count P (t1 ++ t2) = (count P t1 + count P t2)%nat.
Proof. induction t1 as [|e t1 IH]; cbn; [done|]. rewrite IH. lia. Qed.

Lemma count_none (P : Event -> bool) (t : list Event) :
  Forall (fun e => P e = false) t -> count P t = 0%nat.
Proof. induction 1 as [|e t He _ IH]; cbn; [done|]. by rewrite He, IH. Qed.

Lemma count_zero_Forall (P : Event -> bool) (t : list Event) :
  count P t = 0%nat -> Forall (fun e => P e = false) t.
Proof.
  induction t as [|e t IH]; cbn; [done|].
  destruct (P e) eqn:He; [done|]. intros Ht. constructor; auto.
Qed.

Lemma before_app (P : Event -> bool) (t1 t2 : list Event) :
  Forall (fun e => P e = false) t1 ->
  before P (t1 ++ t2) = t1 ++ before P t2.
Proof. induction 1 as [|e t He _ IH]; cbn; [done|]. by rewrite He, IH. Qed.

Lemma after_app (P : Event -> bool) (t1 t2 : list Event) :
  Forall (fun e => P e = false) t1 ->
  after P (t1 ++ t2) = after P t2.
Proof. induction 1 as [|e t He _ IH]; cbn; [done|]. by rewrite He. Qed.

Lemma firstAnswer_app {A : Type} (f : Event -> option A) (t1 t2 : list Event) :
  Forall (fun e => f e = None) t1 ->
  firstAnswer f (t1 ++ t2) = firstAnswer f t2.
Proof. induction 1 as [|e t He _ IH]; cbn; [done|]. by rewrite He. Qed.

(** Nothing that satisfies [Q] comes after an event that satisfies [P]. *)
Lemma after_none (P Q : Event -> bool) (t t1 t2 : list Event) (e : Event) :
  count Q (after P t) = 0%nat ->
  t = t1 ++ e :: t2 -> P e = true ->
  Forall (fun e' => Q e' = false) t2.
Proof.
  intros Hc -> He. revert Hc. induction t1 as [|x t1 IH]; cbn.
  - rewrite He. apply count_zero_Forall.
  - destruct (P x); [|done]. intros Hc.
    apply count_zero_Forall in Hc. rewrite Forall_app in Hc.
    destruct Hc as [_ Hc]. by inversion Hc.
Qed.

(** Every event that satisfies [Q] comes after one that satisfies [P]. *)
Lemma before_none (P Q : Event -> bool) (t t1 t2 : list Event) (e : Event) :
  (forall e', Q e' = true -> P e' = false) ->
  count Q (before P t) = 0%nat ->
  t = t1 ++ e :: t2 -> Q e = true ->
  Exists (fun e' => P e' = true) t1.
Proof.
  intros HPQ Hc -> He. revert Hc. induction t1 as [|x t1 IH]; cbn.
  - rewrite (HPQ _ He). cbn. by rewrite He.
  - destruct (P x) eqn:Hx; cbn.
    + intros _. by constructor.
    + destruct (Q x); [done|]. intros Hc. apply Exists_cons_tl. auto.
Qed.

Lemma wp_forM_update (uploadIdCache : option UploadIdCache)
    (p : uploadResourceParams) (contentHash : list byte) (ids : list string)
    (Q : list Event -> unit -> Prop) :
  (forall answers, length answers = length ids ->
     Q (callbackEvents uploadIdCache p contentHash (zip ids answers)) tt) ->
  wp (forM_ ids (updateUploadId uploadIdCache p contentHash)) Q.
Proof.
  destruct uploadIdCache as [c|]; cbn.
  - revert Q. induction ids as [|id ids IH]; intros Q HQ; cbn.
    + apply (HQ []). done.
    + intros [err|]; cbn.
      * intros []. apply IH. intros answers Hlen.
        apply (HQ (Some err :: answers)). cbn. by rewrite Hlen.
      * apply IH. intros answers Hlen.
        apply (HQ (None :: answers)). cbn. by rewrite Hlen.
  - intros HQ. specialize (HQ (replicate (length ids) None)).
    rewrite length_replicate in HQ. specialize (HQ eq_refl).
    clear -HQ. induction ids as [|id ids IH]; cbn; [done|]. apply IH.
Qed.

Lemma updateEvents_cons c p contentHash id a ids :
  updateEvents c p contentHash ((id, a) :: ids) =
  event (CacheUpdate c id (charmId p) (resourceName p) contentHash) a
  :: match a with
     | Some err =>
         [event (LoggerErrorf "cannot update uploadId cache: %v" err) tt]
     | None => []
     end ++ updateEvents c p contentHash ids.
Proof. reflexivity. Qed.

Lemma callbackEvents_Forall uploadIdCache p contentHash ids :
  Forall (fun e => isCallbackEvent e = true)
         (callbackEvents uploadIdCache p contentHash ids).
Proof.
  destruct uploadIdCache as [c|]; cbn [callbackEvents]; [|done].
  induction ids as [|[id [err|]] ids IH]; [done|..];
    rewrite updateEvents_cons; repeat constructor; done.
Qed.

Lemma callbackEvents_updates uploadIdCache p contentHash ids :
  count isCacheUpdate (callbackEvents uploadIdCache p contentHash ids)
  = match uploadIdCache with Some _ => length ids | None => 0%nat end.
Proof.
  destruct uploadIdCache as [c|]; cbn [callbackEvents]; [|done].
  induction ids as [|[id [err|]] ids IH]; [done|..];
    rewrite updateEvents_cons; cbn [count app length]; rewrite IH; done.
Qed.

Lemma callbackEvents_logged uploadIdCache p contentHash ids :
  count isLoggerCall (callbackEvents uploadIdCache p contentHash ids)
  = count isFailedCacheWrite (callbackEvents uploadIdCache p contentHash ids).
Proof.
  destruct uploadIdCache as [c|]; cbn [callbackEvents]; [|done].
  induction ids as [|[id [err|]] ids IH]; [done|..];
    rewrite updateEvents_cons; cbn [count app length]; rewrite IH; done.
Qed.

Arguments readSeekerSHA256_file : simpl never.

Lemma wp_withDisplay_update start finish uploadIdCache p contentHash
    (Q : list Event -> result Z -> Prop) :
  (forall ids answers r, length answers = length ids ->
     Q (event start ids
        :: callbackEvents uploadIdCache p contentHash (zip ids answers)
        ++ [event finish r]) r) ->
  wp (withDisplay start finish (updateUploadId uploadIdCache p contentHash)) Q.
Proof.
  intros HQ. unfold withDisplay. cbn. intros ids.
  apply wp_bind, wp_forM_update. intros answers Hlen. cbn. intros r.
  by apply HQ.
Qed.

Ltac wp_step :=
  lazymatch goal with
  | |- wp (Ret _) _ => cbn [wp]
  | |- wp (Vis _ _) _ => cbn [wp]; intro
  | |- wp (bind (withDisplay _ _ (updateUploadId _ _ _)) _) _ =>
      apply wp_bind, wp_withDisplay_update; intros
  | |- wp (withDisplay _ _ (updateUploadId _ _ _)) _ =>
      apply wp_withDisplay_update; intros
  | |- wp (bind (Ret _) _) _ => cbn [bind]
  | |- wp (bind (Vis _ _) _) _ => cbn [bind]
  | |- wp (bind (bind _ _) _) _ => apply wp_bind
  | |- wp (bind (call _) _) _ => unfold call at 1
  | |- wp (bind (defer _ _) _) _ => unfold defer at 1
  | |- wp (defer _ _) _ => unfold defer at 1
  | |- wp (call _) _ => unfold call at 1
  | |- wp (bind (match ?x with _ => _ end) _) _ => destruct x eqn:?
  | |- wp (bind (if ?x then _ else _) _) _ => destruct x eqn:?
  | |- wp (match ?x with _ => _ end) _ => destruct x eqn:?
  | |- wp (if ?x then _ else _) _ => destruct x eqn:?
  | |- wp (bind (let '(_, _) := ?x in _) _) _ => destruct x eqn:?
  | |- wp (let '(_, _) := ?x in _) _ => destruct x eqn:?
  end.


Arguments callbackEvents : simpl never.

Lemma callbackEvents_None p contentHash ids :
  callbackEvents None p contentHash ids = [].
Proof. reflexivity. Qed.

Lemma callbackEvents_all (P : Event -> bool) uploadIdCache p contentHash ids :
  (forall e, isCallbackEvent e = true -> P e = false) ->
  Forall (fun e => P e = false)
         (callbackEvents uploadIdCache p contentHash ids).
Proof.
  intros HP. eapply Forall_impl; [apply callbackEvents_Forall|]. exact HP.
Qed.

Lemma callbackEvents_answers {A : Type} (f : Event -> option A)
    uploadIdCache p contentHash ids :
  (forall e, isCallbackEvent e = true -> f e = None) ->
  Forall (fun e => f e = None)
         (callbackEvents uploadIdCache p contentHash ids).
Proof.
  intros HP. eapply Forall_impl; [apply callbackEvents_Forall|]. exact HP.
Qed.

(** The callback makes no call but the cache update and its log. *)
Ltac by_call := intros [X [[] a]]; done.

Lemma callback_not_resume e : isCallbackEvent e = true -> isResume e = false.
Proof. revert e. by_call. Qed.
Lemma callback_not_upload e : isCallbackEvent e = true -> isUpload e = false.
Proof. revert e. by_call. Qed.
Lemma callback_not_transfer e : isCallbackEvent e = true -> isTransfer e = false.
Proof. revert e. by_call. Qed.
Lemma callback_not_lookup e : isCallbackEvent e = true -> isCacheLookup e = false.
Proof. revert e. by_call. Qed.
Lemma callback_not_sweep e : isCallbackEvent e = true -> isCacheSweep e = false.
Proof. revert e. by_call. Qed.
Lemma callback_not_remove e : isCallbackEvent e = true -> isCacheRemove e = false.
Proof. revert e. by_call. Qed.
Lemma callback_not_success e : isCallbackEvent e = true -> reportsSuccess e = false.
Proof. revert e. by_call. Qed.
Lemma callback_no_lookupAnswer e : isCallbackEvent e = true -> lookupAnswer e = None.
Proof. revert e. by_call. Qed.
Lemma callback_no_resumeAnswer e : isCallbackEvent e = true -> resumeAnswer e = None.
Proof. revert e. by_call. Qed.
Lemma callback_no_uploadAnswer e : isCallbackEvent e = true -> uploadAnswer e = None.
Proof. revert e. by_call. Qed.
Lemma callback_no_resumeToken e : isCallbackEvent e = true -> resumeToken e = None.
Proof. revert e. by_call. Qed.
Lemma callback_no_transferContent e : isCallbackEvent e = true -> transferContent e = None.
Proof. revert e. by_call. Qed.
Lemma callback_no_openAnswer e : isCallbackEvent e = true -> openAnswer e = None.
Proof. revert e. by_call. Qed.
Lemma callback_no_statAnswer e : isCallbackEvent e = true -> statAnswer e = None.
Proof. revert e. by_call. Qed.
Lemma callback_no_lookupFailure e : isCallbackEvent e = true -> lookupFailure e = None.
Proof. revert e. by_call. Qed.

Create HintDb trace.
#[export] Hint Resolve callback_not_resume callback_not_upload
  callback_not_transfer callback_not_lookup callback_not_sweep
  callback_not_remove callback_not_success callback_no_lookupAnswer
  callback_no_resumeAnswer callback_no_uploadAnswer callback_no_resumeToken
  callback_no_transferContent callback_no_openAnswer callback_no_statAnswer
  callback_no_lookupFailure : trace.

Ltac callback_side :=
  solve [ apply callbackEvents_all; auto with trace
        | apply callbackEvents_answers; auto with trace ].

(** Bring a trace to the form [e1 :: e2 :: ... (seg ++ e :: ...)] and
    evaluate the readers of traces on it. *)
Ltac trace_eval :=
  rewrite ?callbackEvents_None; rewrite <- ?app_assoc; cbn [app];
  repeat first
    [ progress cbn -[callbackEvents]
    | rewrite <- app_assoc
    | rewrite app_nil_r
    | rewrite count_app
    | rewrite (count_none _ (callbackEvents _ _ _ _)) by callback_side
    | rewrite firstAnswer_app by callback_side
    | rewrite before_app by callback_side
    | rewrite after_app by callback_side
    | rewrite callbackEvents_updates ].

Ltac trace_eval_in H :=
  rewrite ?callbackEvents_None in H; rewrite <- ?app_assoc in H;
  cbn [app] in H;
  repeat first
    [ progress cbn -[callbackEvents] in H
    | rewrite <- app_assoc in H
    | rewrite app_nil_r in H
    | rewrite count_app in H
    | rewrite (count_none _ (callbackEvents _ _ _ _)) in H by callback_side
    | rewrite firstAnswer_app in H by callback_side
    | rewrite before_app in H by callback_side
    | rewrite after_app in H by callback_side
    | rewrite callbackEvents_updates in H ].

(** ** uploadFileResource *)

Ltac use_not_found :=
  repeat match goal with
  | H : isErrUploadNotFound _ = _ |- _ => rewrite H
  end.

(** C1.  In a call of [uploadFileResource] whose cache lookup finds an
    entry, the resume is attempted exactly once, with the cached upload id,
    and a fresh upload at most once, after which nothing is resumed.  When
    the store accepts the resume no fresh upload follows.  When the resume
    fails with the cause [ErrUploadNotFound], exactly one fresh upload
    follows, and its failure, whatever its cause, is returned to the
    caller.  When the resume fails with another cause, no fresh upload
    follows and the failure is returned to the caller. *)
Theorem resume_attempted_once {W : Type} (env : Env W) (w : W)
    (p : uploadResourceParams) (entry : UploadIdCacheEntry) :
  let t := traceOf (run env (uploadFileResource p) w) in
  let r := resultOf (run env (uploadFileResource p) w) in
  firstAnswer lookupAnswer t = Some (Ok entry) ->
  count isResume t = 1%nat /\
  firstAnswer resumeToken t = Some (UploadId entry) /\
  (count isUpload t <= 1)%nat /\
  count isResume (after isUpload t) = 0%nat /\
  match firstAnswer resumeAnswer t with
  | Some (Ok rev) => count isUpload t = 0%nat /\ r = Ok rev
  | Some (Err err) =>
      if isErrUploadNotFound (Cause err) then
        count isUpload t = 1%nat /\
        match firstAnswer uploadAnswer t with
        | Some (Ok rev) => r = Ok rev
        | Some (Err err') => r = Err (errgo_Notef err' "can't upload resource")
        | None => False
        end
      else
        count isUpload t = 0%nat /\
        r = Err (errgo_Notef err "can't upload resource")
  | None => False
  end.
Proof.
  cbv zeta. apply run_wp.
  unfold uploadFileResource, consultCache, transfer.
  repeat wp_step; intros Hlookup; trace_eval_in Hlookup;
    try discriminate Hlookup.
  all: injection Hlookup as ->.
  all: trace_eval; use_not_found; repeat split; (done || lia).
Qed.

Lemma resume_attempted_once_witness :
  let t := traceOf (run sample (uploadFileResource wordpress) forgotten) in
  firstAnswer lookupAnswer t = Some (Ok pendingEntry) /\
  count isResume t = 1%nat /\
  firstAnswer resumeToken t = Some "upload-1"%string /\
  (count isUpload t <= 1)%nat.
Proof.
  cbv zeta.
  assert (firstAnswer lookupAnswer
            (traceOf (run sample (uploadFileResource wordpress) forgotten))
          = Some (Ok pendingEntry)) as Hlookup by (vm_compute; reflexivity).
  split; [exact Hlookup|].
  destruct (resume_attempted_once sample forgotten wordpress pendingEntry
              Hlookup) as (H1 & H2 & H3 & _).
  auto.
Defined.

Lemma remove_not_success e : isCacheRemove e = true -> reportsSuccess e = false.
Proof. revert e. by_call. Qed.

(** The lookup comes before the transfers, the removal after the store's
    report of success and after the last transfer: no lookup follows the
    start of a transfer, no removal comes before the first report of
    success, and no transfer starts after the removal. *)
Lemma uploadFileResource_order (p : uploadResourceParams) :
  wp (uploadFileResource p) (fun t _ =>
    count isCacheLookup (after isTransfer t) = 0%nat /\
    count isCacheRemove (before reportsSuccess t) = 0%nat /\
    count isTransfer (after isCacheRemove t) = 0%nat).
Proof.
  unfold uploadFileResource, consultCache, transfer.
  repeat wp_step; trace_eval; done.
Qed.

(** C5.  Split the trace of a call of [uploadFileResource] at any event
    [e].  If [e] starts a transfer, no cache lookup follows it.  If [e] is
    the removal of the cache entry, the store has reported a transfer
    successful before it, and no transfer starts after it. *)
Theorem lookup_before_transfer_removal_after_success {W : Type}
    (env : Env W) (w : W) (p : uploadResourceParams)
    (t1 t2 : list Event) (e : Event) :
  traceOf (run env (uploadFileResource p) w) = t1 ++ e :: t2 ->
  (isTransfer e = true -> Forall (fun e' => isCacheLookup e' = false) t2) /\
  (isCacheRemove e = true ->
     Exists (fun e' => reportsSuccess e' = true) t1 /\
     Forall (fun e' => isTransfer e' = false) t2).
Proof.
  intros Ht.
  destruct (run_wp env _ w _ (uploadFileResource_order p)) as (Hl & Hr & Hn).
  split; intros He; [|split].
  - exact (after_none _ _ _ _ _ _ Hl Ht He).
  - exact (before_none _ _ _ _ _ _ remove_not_success Hr Ht He).
  - exact (after_none _ _ _ _ _ _ Hn Ht He).
Qed.

Lemma lookup_before_transfer_removal_after_success_witness :
  let t := traceOf (run sample (uploadFileResource wordpress) forgotten) in
  let e := event (CacheRemove (NewUploadIdCache "/home/user/.cache/charm"
                                 uploadIdCacheExpiryDuration)
                    "cs:~who/wordpress-3" "data"
                    (SHA256.Sum (contents dataZip))) None in
  t = take 15 t ++ e :: drop 16 t /\
  Exists (fun e' => reportsSuccess e' = true) (take 15 t) /\
  Forall (fun e' => isTransfer e' = false) (drop 16 t).
Proof.
  cbv zeta.
  assert (traceOf (run sample (uploadFileResource wordpress) forgotten)
          = take 15 (traceOf (run sample (uploadFileResource wordpress)
                                  forgotten))
            ++ event (CacheRemove (NewUploadIdCache "/home/user/.cache/charm"
                                     uploadIdCacheExpiryDuration)
                        "cs:~who/wordpress-3" "data"
                        (SHA256.Sum (contents dataZip))) None
            :: drop 16 (traceOf (run sample (uploadFileResource wordpress)
                                     forgotten))) as Ht
    by (vm_compute; reflexivity).
  split; [exact Ht|].
  exact (proj2 (lookup_before_transfer_removal_after_success
                  sample forgotten wordpress _ _ _ Ht) eq_refl).
Defined.

(** The writes are the sweeps, the updates and the removals. *)
Lemma count_cache_writes (t : list Event) :
  count isCacheWrite t
  = (count isCacheSweep t + count isCacheUpdate t + count isCacheRemove t)%nat.
Proof.
  induction t as [|[X [c a]] t IH]; [done|].
  cbn [count]. rewrite IH. destruct c; cbn; lia.
Qed.

Lemma notified_app (t1 t2 : list Event) :
  notified (t1 ++ t2) = (notified t1 + notified t2)%nat.
Proof. induction t1 as [|e t1 IH]; cbn; [done|]. rewrite IH. lia. Qed.

Lemma callbackEvents_notified uploadIdCache p contentHash ids :
  notified (callbackEvents uploadIdCache p contentHash ids) = 0%nat.
Proof.
  destruct uploadIdCache as [c|]; unfold callbackEvents; [|done].
  induction ids as [|[id [err|]] ids IH]; [done|..];
    rewrite updateEvents_cons; cbn; exact IH.
Qed.

Ltac count_eval :=
  trace_eval;
  repeat first
    [ rewrite notified_app
    | rewrite callbackEvents_notified
    | rewrite length_zip
    | progress cbn -[callbackEvents] ].

(** The cache operations of a call, against the upload ids the store
    notifies during it. *)
Lemma uploadFileResource_cache_calls (p : uploadResourceParams) :
  wp (uploadFileResource p) (fun t _ =>
    (count isCacheLookup t <= 1)%nat /\
    (count isCacheSweep t <= 1)%nat /\
    (count isCacheRemove t <= 1)%nat /\
    (count isTransfer t <= 2)%nat /\
    count isCacheUpdate t
    = if String.eqb (cachePath p) "" then 0%nat else notified t).
Proof.
  unfold uploadFileResource, consultCache, transfer.
  repeat wp_step; count_eval;
    repeat match goal with
    | H : (cachePath p =? "")%string = _ |- _ => rewrite H
    | H : length _ = length _ |- _ => rewrite H
    end;
    repeat split; try lia; by destruct (cachePath p =? "")%string.
Qed.

(** C6, as amended.  In a call of [uploadFileResource] the cache is looked
    up at most once.  It is written by the sweep of the expired entries, at
    most once; by one update for every upload id the store notifies during
    the call, of which each of the at most two transfers may notify any
    number, and by none when no cache path is configured; and by the
    removal of the entry, at most once.  That is at most two writes beside
    the updates. *)
Theorem cache_read_once_written_per_notification {W : Type}
    (env : Env W) (w : W) (p : uploadResourceParams) :
  let t := traceOf (run env (uploadFileResource p) w) in
  (count isCacheLookup t <= 1)%nat /\
  (count isCacheSweep t <= 1)%nat /\
  (count isCacheRemove t <= 1)%nat /\
  (count isTransfer t <= 2)%nat /\
  count isCacheUpdate t
  = (if String.eqb (cachePath p) "" then 0%nat else notified t) /\
  count isCacheWrite t
  = (count isCacheSweep t + count isCacheUpdate t + count isCacheRemove t)%nat
  /\ (count isCacheWrite t <= 2 + notified t)%nat.
Proof.
  cbv zeta.
  destruct (run_wp env _ w _ (uploadFileResource_cache_calls p))
    as (Hl & Hs & Hr & Ht & Hu).
  rewrite count_cache_writes. repeat split; try done.
  rewrite Hu. destruct (cachePath p =? "")%string; lia.
Qed.

(** C6, as stated, fails: with nothing pending and one upload id notified,
    the cache is written three times.  The sweep deletes the expired entry
    of another charm, the update stores the new upload id, the removal
    deletes it. *)
Lemma cache_written_three_times :
  let out := run sample (uploadFileResource wordpress) freshUpload in
  resultOf out = Ok 4 /\
  notified (traceOf out) = 1%nat /\
  count isCacheLookup (traceOf out) = 1%nat /\
  count isCacheWrite (traceOf out) = 3%nat /\
  map_to_list (sCache freshUpload)
  = [(otherKey,
      mkEntry "cs:~who/mysql-7" "dump" (SHA256.Sum []) "upload-0" 0)] /\
  map map_to_list (sStores out.1.2) = [[]; [(dataKey, freshEntry)]; []].
Proof. vm_compute. repeat split; reflexivity. Qed.

Lemma callback_no_successAnswer e :
  isCallbackEvent e = true -> successAnswer e = None.
Proof. revert e. by_call. Qed.

#[export] Hint Resolve callback_no_successAnswer : trace.

(** C7.  In a call of [uploadFileResource] with no cache path configured,
    the block that consults the cache does nothing: it makes no call,
    leaves the content hash nil and the upload id empty, and does not touch
    the file.  The call makes no call to the cache, every
    [ResumeUploadResource] it makes carries the empty upload id, and every
    transfer is handed the file as [os.Open] returned it.  When the file
    opens and its size is read, the call makes exactly one
    [ResumeUploadResource], a fresh upload; and when the store reports a
    transfer successful the call returns the revision. *)
Theorem no_cache_path_fresh_upload {W : Type} (env : Env W) (w : W)
    (p : uploadResourceParams) :
  cachePath p = ""%string ->
  let t := traceOf (run env (uploadFileResource p) w) in
  let r := resultOf (run env (uploadFileResource p) w) in
  (forall f, consultCache p f = Ret (Ok (None, [], ""%string, f))) /\
  count isCacheCall t = 0%nat /\
  Forall (fun e => forall id, resumeToken e = Some id -> id = ""%string) t /\
  Forall (fun e => forall f, transferContent e = Some f ->
                   firstAnswer openAnswer t = Some (Ok f)) t /\
  (forall f size,
     firstAnswer openAnswer t = Some (Ok f) ->
     firstAnswer statAnswer t = Some (Ok size) ->
     count isResume t = 1%nat /\ firstAnswer resumeToken t = Some ""%string) /\
  (forall rev, firstAnswer successAnswer t = Some rev -> r = Ok rev).
Proof.
  intros Hp. cbv zeta. split.
  { intros f. unfold consultCache. by rewrite Hp. }
  apply run_wp. unfold uploadFileResource, consultCache, transfer.
  rewrite Hp. cbn [String.eqb].
  repeat wp_step; trace_eval.
  all: repeat split; try done.
  all: try (intros; discriminate).
  all: repeat constructor; cbn; intros; simplify_eq; done.
Qed.

Lemma no_cache_path_fresh_upload_witness :
  let t := traceOf (run sample (uploadFileResource wordpressNoCache)
                        freshUpload) in
  cachePath wordpressNoCache = ""%string /\
  count isCacheCall t = 0%nat /\
  Forall (fun e => forall id, resumeToken e = Some id -> id = ""%string) t.
Proof.
  cbv zeta. split; [reflexivity|].
  destruct (no_cache_path_fresh_upload sample freshUpload wordpressNoCache
              eq_refl) as (_ & Hc & Ht & _).
  split; [exact Hc | exact Ht].
Defined.

Ltac use_cache_miss :=
  repeat match goal with
  | H : isErrCacheEntryNotFound _ = _ |- _ => rewrite H
  end.

Ltac use_logged :=
  repeat first
    [ rewrite callbackEvents_logged
    | rewrite (callbackEvents_logged (Some _)) ].

Lemma transferError_app (t1 t2 : list Event) :
  Forall (fun e => isCallbackEvent e = true) t1 ->
  transferError (t1 ++ t2) = transferError t2.
Proof.
  intros Ht. unfold transferError.
  rewrite !firstAnswer_app; [done|..];
    (eapply Forall_impl; [exact Ht|]); auto with trace.
Qed.

(** C8.  In a call of [uploadFileResource], every error the cache answers
    a sweep, an update or a removal with is logged, once; when the store
    reports a transfer successful the call returns the revision, whatever
    the cache answered; and an error the call returns is either the masked
    error of [os.Open], of [Stat], of the hashing of the file or of a cache
    lookup that failed with a cause other than [errCacheEntryNotFound], or
    the annotated error of the last transfer.  Of the cache operations, the
    lookup alone can fail the call, when the cache cannot serve it. *)
Theorem cache_errors_logged_not_returned {W : Type} (env : Env W) (w : W)
    (p : uploadResourceParams) :
  let t := traceOf (run env (uploadFileResource p) w) in
  let r := resultOf (run env (uploadFileResource p) w) in
  count isFailedCacheWrite t = count isLoggerCall t /\
  (forall rev, firstAnswer successAnswer t = Some rev -> r = Ok rev) /\
  (forall err, r = Err err ->
     (exists u, err = errgo_Mask u /\
        (firstAnswer openAnswer t = Some (Err u) \/
         firstAnswer statAnswer t = Some (Err u) \/
         (exists f, firstAnswer openAnswer t = Some (Ok f) /\
                    (readSeekerSHA256_file f).1 = Err u) \/
         firstAnswer lookupFailure t = Some u)) \/
     (exists u, err = errgo_Notef u "can't upload resource" /\
                transferError t = Some u)).
Proof.
  cbv zeta. apply run_wp.
  unfold uploadFileResource, consultCache, transfer.
  repeat wp_step; unfold transferError; trace_eval; use_logged;
    use_cache_miss; trace_eval.
  all: split; [lia|split; [intros; simplify_eq; done|]].
  all: intros ? [= <-].
  all: first
    [ right; eexists; split; [reflexivity|done]
    | left; eexists; split; [reflexivity|];
      first
        [ by left
        | by right; left
        | right; right; left; eexists; split; [reflexivity|];
          match goal with
          | H : readSeekerSHA256_file _ = _ |- _ => by rewrite H
          end
        | by right; right; right ] ].
Qed.

Lemma cache_errors_logged_not_returned_witness :
  let out := run sample (uploadFileResource wordpress) faultyCache in
  count isFailedCacheWrite (traceOf out) = 3%nat /\
  count isLoggerCall (traceOf out) = 3%nat /\
  firstAnswer successAnswer (traceOf out) = Some 4 /\
  resultOf out = Ok 4.
Proof.
  cbv zeta.
  destruct (cache_errors_logged_not_returned sample faultyCache wordpress)
    as (Hlog & Hok & _).
  assert (firstAnswer successAnswer
            (traceOf (run sample (uploadFileResource wordpress) faultyCache))
          = Some 4) as Hs by (vm_compute; reflexivity).
  split; [vm_compute; reflexivity|].
  split; [rewrite <- Hlog; vm_compute; reflexivity|].
  split; [exact Hs | exact (Hok 4 Hs)].
Defined.

(** ** The registry digest resolver *)

Lemma referenceTagOrDigest_no_panic (ref : Named) :
  is_Some (refTag (reference_TagNameOnly ref)) \/
  is_Some (refDigest (reference_TagNameOnly ref)).
Proof.
  unfold reference_TagNameOnly, reference_IsNameOnly.
  destruct ref as [d p [tag|] [dig|]]; cbn; eauto.
Qed.

Lemma validManifestResponse_false (resp : Response) :
  validManifestResponse resp = false <->
  StatusCode resp <> http_StatusOK \/
  strings_HasPrefix (versionHeader resp) "registry/2." = false \/
  digestHeader resp = ""%string.
Proof.
  unfold validManifestResponse.
  destruct (Z.eqb_spec (StatusCode resp) http_StatusOK) as [Hs|Hs];
    destruct (strings_HasPrefix (versionHeader resp) "registry/2.");
    destruct (String.eqb_spec (digestHeader resp) "") as [Hd|Hd];
    cbn; split; intros H; try done; auto; try tauto.
Qed.

Lemma validManifestResponse_true (resp : Response) :
  negb (StatusCode resp =? http_StatusOK) = false ->
  negb (strings_HasPrefix
          (Header_Get (Header resp) "Docker-Distribution-Api-Version")
          "registry/2.") = false ->
  (Header_Get (Header resp) "Docker-Content-Digest" =? "")%string = false ->
  validManifestResponse resp = true.
Proof.
  unfold validManifestResponse, versionHeader, digestHeader.
  intros ->%negb_false_iff ->%negb_false_iff ->. done.
Qed.

Ltac status_facts :=
  repeat match goal with
  | H : negb (StatusCode _ =? _) = false |- _ =>
      apply negb_false_iff, Z.eqb_eq in H
  | H : negb (StatusCode _ =? _) = true |- _ =>
      apply negb_true_iff, Z.eqb_neq in H
  end.

Ltac unfold_resolver :=
  unfold uploadExternalDockerResource, imageDigestForReference,
    registryAuthorizer, dockerRegistryDo.

Ltac resolver_step :=
  first
    [ wp_step
    | lazymatch goal with
      | |- wp (bind (let _ := _ in _) _) _ => cbv zeta
      | |- wp (let _ := _ in _) _ => cbv zeta
      end ].

(** C4.  When the first response of the registry to the manifest request
    has a status other than 200, or a version header that does not start
    with "registry/2.", or an empty or absent digest header, the resolution
    returns an error and no digest, and has made that one request only.
    A status other than 200 in any response to a manifest request, the
    second as well, makes the resolution return an error. *)
Theorem invalid_manifest_response_is_fatal {W : Type} (env : Env W) (w : W)
    (p : uploadResourceParams) (ref : Named) :
  let t := traceOf (run env (imageDigestForReference p ref) w) in
  let r := resultOf (run env (imageDigestForReference p ref) w) in
  (forall resp,
     firstAnswer doAnswer t = Some (Ok resp) ->
     StatusCode resp <> http_StatusOK \/
     strings_HasPrefix (versionHeader resp) "registry/2." = false \/
     digestHeader resp = ""%string ->
     isErr r = true /\
     count isHeadRequest t = 1%nat /\
     doAnswers t = [Ok resp]) /\
  (forall resp,
     In (Ok resp) (doAnswers t) -> StatusCode resp <> http_StatusOK ->
     isErr r = true).
Proof.
  cbv zeta. apply run_wp. unfold_resolver.
  repeat resolver_step; cbn.
  all: split; [intros resp Hresp Hbad|intros resp Hin Hcode].
  all: try apply validManifestResponse_false in Hbad.
  all: simplify_eq; try done.
  all: try (exfalso; rewrite validManifestResponse_true in Hbad by assumption;
            discriminate).
  all: status_facts; repeat destruct Hin as [Hin|Hin]; simplify_eq; done.
Qed.

Lemma invalid_manifest_response_is_fatal_witness :
  let out := run sample (imageDigestForReference externalImage taggedRef)
                 (registry (Ok taggedRef) [Ok notFound404]) in
  firstAnswer doAnswer (traceOf out) = Some (Ok notFound404) /\
  StatusCode notFound404 <> http_StatusOK /\
  isErr (resultOf out) = true /\
  count isHeadRequest (traceOf out) = 1%nat.
Proof.
  cbv zeta.
  assert (firstAnswer doAnswer
            (traceOf (run sample
                          (imageDigestForReference externalImage taggedRef)
                          (registry (Ok taggedRef) [Ok notFound404])))
          = Some (Ok notFound404)) as Hresp by (vm_compute; reflexivity).
  assert (StatusCode notFound404 <> http_StatusOK) as Hcode by discriminate.
  split; [exact Hresp|]. split; [exact Hcode|].
  destruct (proj1 (invalid_manifest_response_is_fatal sample _ externalImage
                     taggedRef) notFound404 Hresp (or_introl Hcode))
    as (Hr & Hn & _).
  split; [exact Hr | exact Hn].
Defined.

Lemma validManifestResponse_checks (resp : Response) :
  validManifestResponse resp = true ->
  negb (StatusCode resp =? http_StatusOK) = false /\
  negb (strings_HasPrefix
          (Header_Get (Header resp) "Docker-Distribution-Api-Version")
          "registry/2.") = false /\
  (Header_Get (Header resp) "Docker-Content-Digest" =? "")%string = false.
Proof.
  unfold validManifestResponse, versionHeader, digestHeader.
  intros [[-> ->]%andb_prop Hd%negb_true_iff]%andb_prop. done.
Qed.

(** C2, as amended.  For a reference that carries no digest: when the
    resolution returns a digest, the registry has answered two requests,
    the first with a response that passes the checks and the second with
    status 200; the digest returned is the one of the first response, and
    the second request is for the manifest of that digest.  When the
    registry has answered two requests, the second with status 200, the
    resolution returns the digest of the first response: the digest header
    of the second response is not read.  When the first response passes the
    checks, the second request is made.  For a reference that carries a
    digest no second request is made. *)
Theorem second_head_checks_status_only {W : Type} (env : Env W) (w : W)
    (p : uploadResourceParams) (ref : Named) :
  let t := traceOf (run env (imageDigestForReference p ref) w) in
  let r := resultOf (run env (imageDigestForReference p ref) w) in
  (refDigest ref = None ->
     (forall d, r = Ok d ->
        exists resp1 resp2,
          doAnswers t = [Ok resp1; Ok resp2] /\
          validManifestResponse resp1 = true /\
          StatusCode resp2 = http_StatusOK /\
          d = digestHeader resp1 /\
          requestURLs t = [manifestURL ref (referenceTagOrDigest ref);
                           manifestURL ref d]) /\
     (forall resp1 resp2,
        doAnswers t = [Ok resp1; Ok resp2] ->
        StatusCode resp2 = http_StatusOK ->
        r = Ok (digestHeader resp1)) /\
     (forall resp1,
        firstAnswer doAnswer t = Some (Ok resp1) ->
        validManifestResponse resp1 = true ->
        count isHeadRequest t = 2%nat /\
        requestURLs t = [manifestURL ref (referenceTagOrDigest ref);
                         manifestURL ref (digestHeader resp1)])) /\
  (forall d, refDigest ref = Some d ->
     (count isHeadRequest t <= 1)%nat /\ (length (doAnswers t) <= 1)%nat).
Proof.
  cbv zeta. apply run_wp. unfold_resolver.
  repeat resolver_step; cbn.
  all: split; [intros Href; try discriminate Href|intros d Href; cbn; try lia].
  all: try (rewrite Href in *; discriminate).
  all: repeat split; intros; simplify_eq; try done.
  all: try match goal with
       | H : validManifestResponse _ = true |- _ =>
           apply validManifestResponse_checks in H as (? & ? & ?); congruence
       end.
  - status_facts. congruence.
  - eexists _, _. split; [reflexivity|].
    split; [by apply validManifestResponse_true|].
    status_facts. done.
Qed.

Lemma second_head_checks_status_only_witness :
  let out := run sample (imageDigestForReference externalImage taggedRef)
                 inconsistentRegistry in
  refDigest taggedRef = None /\
  doAnswers (traceOf out)
  = [Ok (ok200 "sha256:aaaa"); Ok (ok200 "sha256:bbbb")] /\
  resultOf out = Ok "sha256:aaaa"%string.
Proof.
  cbv zeta.
  assert (doAnswers (traceOf (run sample
                               (imageDigestForReference externalImage
                                                        taggedRef)
                               inconsistentRegistry))
          = [Ok (ok200 "sha256:aaaa"); Ok (ok200 "sha256:bbbb")]) as Hd
    by (vm_compute; reflexivity).
  split; [reflexivity|]. split; [exact Hd|].
  destruct (second_head_checks_status_only sample inconsistentRegistry
              externalImage taggedRef) as [Htag _].
  destruct (Htag eq_refl) as (_ & Hok & _).
  exact (Hok _ _ Hd eq_refl).
Defined.

(** C2, as stated, fails: the two responses have status 200 and report
    different digests, and the resolution succeeds. *)
Lemma differing_digests_accepted :
  let out := run sample (imageDigestForReference externalImage taggedRef)
                 inconsistentRegistry in
  refTag taggedRef = Some "18.04"%string /\
  refDigest taggedRef = None /\
  digestsAnswered (traceOf out)
  = [Some "sha256:aaaa"%string; Some "sha256:bbbb"%string] /\
  resultOf out = Ok "sha256:aaaa"%string.
Proof. vm_compute. repeat split; reflexivity. Qed.

(** C10.  For a reference that carries a digest: a digest the resolution
    returns is the one of the reference; when the first response has status
    200, a version header that starts with "registry/2." and a digest
    header that is not empty, the resolution returns the digest of the
    reference, whatever the header holds; and when the digest header is
    empty or absent the resolution fails.  One request is made at most. *)
Theorem canonical_reference_keeps_its_digest {W : Type} (env : Env W) (w : W)
    (p : uploadResourceParams) (ref : Named) (d : string) :
  refDigest ref = Some d ->
  let t := traceOf (run env (imageDigestForReference p ref) w) in
  let r := resultOf (run env (imageDigestForReference p ref) w) in
  (forall d', r = Ok d' -> d' = d) /\
  (forall resp,
     firstAnswer doAnswer t = Some (Ok resp) ->
     StatusCode resp = http_StatusOK ->
     strings_HasPrefix (versionHeader resp) "registry/2." = true ->
     digestHeader resp <> ""%string ->
     r = Ok d) /\
  (forall resp,
     firstAnswer doAnswer t = Some (Ok resp) ->
     digestHeader resp = ""%string -> isErr r = true) /\
  (count isHeadRequest t <= 1)%nat.
Proof.
  intros Href. cbv zeta. apply run_wp. unfold_resolver. rewrite Href.
  repeat resolver_step; cbn.
  all: repeat split; intros; simplify_eq; try done; try lia.
  all: status_facts; try congruence.
  all: unfold versionHeader, digestHeader in *.
  all: repeat match goal with
       | H : (_ =? _)%string = true |- _ => apply String.eqb_eq in H
       | H : (_ =? _)%string = false |- _ => apply String.eqb_neq in H
       | H : negb _ = true |- _ => apply negb_true_iff in H
       end; congruence.
Qed.

Lemma canonical_reference_keeps_its_digest_witness :
  let out := run sample (imageDigestForReference externalImage canonicalRef)
                 otherDigestRegistry in
  refDigest canonicalRef = Some "sha256:aaaa"%string /\
  firstAnswer doAnswer (traceOf out) = Some (Ok (ok200 "sha256:bbbb")) /\
  resultOf out = Ok "sha256:aaaa"%string.
Proof.
  cbv zeta.
  assert (firstAnswer doAnswer
            (traceOf (run sample
                          (imageDigestForReference externalImage canonicalRef)
                          otherDigestRegistry))
          = Some (Ok (ok200 "sha256:bbbb"))) as Hresp
    by (vm_compute; reflexivity).
  split; [reflexivity|]. split; [exact Hresp|].
  destruct (canonical_reference_keeps_its_digest sample otherDigestRegistry
              externalImage canonicalRef "sha256:aaaa" eq_refl)
    as (_ & Hok & _).
  apply (Hok _ Hresp); [reflexivity|reflexivity|discriminate].
Defined.

(** ** uploadDockerResource *)

Lemma prefix_length (pre s : string) :
  String.prefix pre s = true -> (String.length pre <= String.length s)%nat.
Proof.
  revert s. induction pre as [|a pre IH]; intros [|b s]; cbn; try done; try lia.
  destruct (Ascii.ascii_dec a b); [|done]. intros H%IH. lia.
Qed.

Lemma substring_length (n m : nat) (s : string) :
  (n + m <= String.length s)%nat ->
  String.length (String.substring n m s) = m.
Proof.
  revert m s. induction n as [|n IH]; intros m s.
  - revert s. induction m as [|m IHm]; intros [|a s]; cbn; try done; try lia.
    intros H. rewrite IHm; [done|lia].
  - destruct s as [|a s]; cbn; [lia|]. intros H. apply IH. lia.
Qed.

(** The test [len(refStr) != len(p.reference)] tells whether the prefix was
    there. *)
Lemma TrimPrefix_shorter (s pre : string) :
  pre <> ""%string ->
  negb (String.length (strings_TrimPrefix s pre) =? String.length s)%nat
  = strings_HasPrefix s pre.
Proof.
  intros Hpre. unfold strings_TrimPrefix, strings_HasPrefix.
  destruct (String.prefix pre s) eqn:Hp.
  - apply prefix_length in Hp.
    rewrite substring_length by lia.
    assert (0 < String.length pre)%nat by (destruct pre; [done|cbn; lia]).
    apply negb_true_iff, Nat.eqb_neq. lia.
  - by rewrite Nat.eqb_refl.
Qed.

(** What is left of the prefixed reference is what followed the prefix. *)
Lemma prefix_append (pre s : string) : String.prefix pre (pre ++ s) = true.
Proof.
  induction pre as [|a pre IH]; simpl; [by destruct s|].
  destruct (Ascii.ascii_dec a a); [exact IH|done].
Qed.

Lemma substring_all (s : string) :
  String.substring 0 (String.length s) s = s.
Proof. induction s as [|a s IH]; simpl; [done|]. by rewrite IH. Qed.

Lemma TrimPrefix_append (pre s : string) :
  strings_TrimPrefix (pre ++ s) pre = s.
Proof.
  unfold strings_TrimPrefix, strings_HasPrefix. rewrite prefix_append.
  induction pre as [|a pre IH]; simpl.
  - rewrite Nat.sub_0_r. apply substring_all.
  - exact IH.
Qed.

Lemma wp_unmarshalAux (ms : list auxMessage) (s : finalStatusT)
    (Q : list Event -> finalStatusT -> Prop) :
  (forall seg s', Forall (fun e => isLoggerCall e = true) seg -> Q seg s') ->
  wp (unmarshalAux ms s) Q.
Proof.
  revert s Q. induction ms as [|m ms IH]; intros s Q HQ; cbn.
  - by apply HQ.
  - destruct (auxErr m) as [err|]; cbn.
    + intros []. apply IH. intros seg s' Hseg. apply HQ. by constructor.
    + apply IH. intros seg s' Hseg. by apply HQ.
Qed.

Lemma logger_not_registry e : isLoggerCall e = true -> isRegistryCall e = false.
Proof. revert e. by_call. Qed.

(** The push makes no call to a registry. *)
Lemma pushDockerResource_no_registry (p : uploadResourceParams) (ref : Named) :
  wp (pushDockerResource p ref) (fun t _ => count isRegistryCall t = 0%nat).
Proof.
  unfold pushDockerResource.
  repeat first
    [ resolver_step
    | lazymatch goal with
      | |- wp (bind (unmarshalAux _ _) _) _ =>
          apply wp_bind, wp_unmarshalAux; intros
      end ];
    cbn; rewrite ?count_app;
    rewrite ?(count_none isRegistryCall) by
      (eapply Forall_impl; [eassumption|]; apply logger_not_registry);
    done.
Qed.

Lemma run_bind {W A B : Type} (env : Env W) (m : Prog A) (k : A -> Prog B)
    (w : W) :
  run env (bind m k) w =
    let '(a, w1, t1) := run env m w in
    let '(b, w2, t2) := run env (k a) w1 in
    (b, w2, t1 ++ t2).
Proof.
  revert w. induction m as [a|X c k' IH]; intros w; cbn.
  - by destruct (run env (k a) w) as [[b w2] t2].
  - destruct (env X c w) as [x w1]. rewrite IH.
    destruct (run env (k' x) w1) as [[a w2] t1].
    by destruct (run env (k a) w2) as [[b w3] t2].
Qed.

(** The resolution moves no image and registers nothing. *)
Lemma imageDigestForReference_quiet (p : uploadResourceParams) (ref : Named) :
  wp (imageDigestForReference p ref) (fun t _ =>
    count isPushCall t = 0%nat /\ count isAddDockerResource t = 0%nat).
Proof. unfold_resolver. repeat resolver_step; cbn; done. Qed.

(** C9, as amended.  [uploadDockerResource] first has the reference
    parsed, without the prefix "external::" when it begins with it.  When
    the parser rejects it, the call fails with "invalid image name" and
    does nothing else.  When the parser accepts it, the call goes on as
    [uploadExternalDockerResource] if the reference begins with the prefix,
    and as the push of the local image otherwise.  The resolution of the
    digest makes no call that moves an image and registers nothing;
    [uploadExternalDockerResource] is that resolution, followed when it
    succeeds by the one registration of the name of the parsed reference
    with the digest resolved; and the push makes no call to a registry. *)
Theorem external_prefix_routes_to_resolver {W : Type} (env : Env W)
    (p : uploadResourceParams) :
  (forall w,
     let refStr := strings_TrimPrefix (reference p) "external::" in
     let parse := ParseNormalizedNamed refStr in
     run env (uploadDockerResource p) w =
       match (env _ parse w).1 with
       | Err err =>
           (Err (errgo_Notef err ("invalid image name "
                                  ++ quoted (reference p))),
            (env _ parse w).2, [event parse (Err err)])
       | Ok ref =>
           let out :=
             run env (if strings_HasPrefix (reference p) "external::"
                      then uploadExternalDockerResource p ref
                      else pushDockerResource p ref)
                 (env _ parse w).2 in
           (resultOf out, out.1.2, event parse (Ok ref) :: traceOf out)
       end) /\
  (forall ref w,
     let res := run env (imageDigestForReference p ref) w in
     count isPushCall (traceOf res) = 0%nat /\
     count isAddDockerResource (traceOf res) = 0%nat /\
     run env (uploadExternalDockerResource p ref) w =
       match resultOf res with
       | Err err => (Err (errgo_Mask err), res.1.2, traceOf res)
       | Ok digest =>
           let register :=
             AddDockerResource (charmId p) (resourceName p) (Named_Name ref)
                               digest in
           (match (env _ register res.1.2).1 with
            | Err err => Err (errgo_Notef err "cannot add docker resource")
            | Ok rev => Ok rev
            end,
            (env _ register res.1.2).2,
            traceOf res ++ [event register (env _ register res.1.2).1])
       end) /\
  (forall ref w,
     count isRegistryCall (traceOf (run env (pushDockerResource p ref) w))
     = 0%nat).
Proof.
  split; [|split].
  - intros w. cbv zeta. unfold uploadDockerResource. cbn [bind call run].
    destruct (env _ _ w) as [[ref|err] w1]; cbn [fst snd run].
    + rewrite TrimPrefix_shorter by discriminate.
      unfold resultOf, traceOf.
      by destruct (run env _ w1) as [[r w2] t].
    + done.
  - intros ref w. cbv zeta.
    destruct (run_wp env _ w _ (imageDigestForReference_quiet p ref))
      as [Hpush Hadd].
    split; [exact Hpush|]. split; [exact Hadd|].
    unfold uploadExternalDockerResource. rewrite run_bind.
    unfold resultOf, traceOf.
    destruct (run env (imageDigestForReference p ref) w) as [[[d|err] w1] t];
      cbn [fst snd run bind call]; [|by rewrite app_nil_r].
    by destruct (env _ _ w1) as [[rev|err] w2].
  - intros ref w. apply (run_wp env _ w _ (pushDockerResource_no_registry p ref)).
Qed.

Lemma external_prefix_routes_to_resolver_witness :
  let out := run sample (uploadDockerResource externalImage) ubuntuRegistry in
  strings_HasPrefix (reference externalImage) "external::" = true /\
  resultOf out = Ok 9 /\
  count isPushCall (traceOf out) = 0%nat /\
  firstAnswer parsed (traceOf out) = Some "ubuntu:18.04"%string /\
  firstAnswer registered (traceOf out)
  = Some ("docker.io/library/ubuntu"%string, "sha256:aaaa"%string).
Proof.
  cbv zeta.
  destruct (external_prefix_routes_to_resolver sample externalImage)
    as (Hroute & _ & _).
  rewrite (Hroute ubuntuRegistry).
  vm_compute. repeat split; reflexivity.
Defined.

(** C9, as stated, fails: the reference begins with the prefix, the parser
    rejects what follows it, and the call ends there: no call to the
    registry is made. *)
Lemma rejected_reference_is_not_routed :
  let out := run sample (uploadDockerResource badImage) rejectingParser in
  strings_HasPrefix (reference badImage) "external::" = true /\
  traceOf out = [event (ParseNormalizedNamed "Ubuntu") (Err mustBeLowercase)] /\
  count isRegistryCall (traceOf out) = 0%nat /\
  isErr (resultOf out) = true.
Proof. vm_compute. repeat split; reflexivity. Qed.

(** ** The scenarios of the specification, on the sample environment *)

(** The store still accepts the cached upload id: the upload is resumed,
    no fresh upload is made, and the entry leaves the cache. *)
Example resume_accepted :
  let out := run sample (uploadFileResource wordpress) resumable in
  resultOf out = Ok 4 /\
  firstAnswer resumeToken (traceOf out) = Some "upload-1"%string /\
  count isUpload (traceOf out) = 0%nat /\
  map_to_list (sCache out.1.2) = [].
Proof. vm_compute. repeat split; reflexivity. Qed.

(** The store has forgotten the cached upload id: one fresh upload follows
    the resume, it succeeds, and the entry leaves the cache. *)
Example resume_forgotten :
  let out := run sample (uploadFileResource wordpress) forgotten in
  resultOf out = Ok 5 /\
  count isResume (traceOf out) = 1%nat /\
  count isUpload (traceOf out) = 1%nat /\
  map_to_list (sCache out.1.2) = [].
Proof. vm_compute. repeat split; reflexivity. Qed.

(** A reference by digest that the registry knows resolves to that digest
    with one request. *)
Example digest_reference_resolved :
  let out := run sample (imageDigestForReference externalImage canonicalRef)
                 (registry (Ok canonicalRef) [Ok (ok200 "sha256:aaaa")]) in
  resultOf out = Ok "sha256:aaaa"%string /\
  requestURLs (traceOf out)
  = ["https://registry-1.docker.io/v2/library/ubuntu/manifests/sha256:aaaa"
     %string].
Proof. vm_compute. repeat split; reflexivity. Qed.

(** A local image is tagged and pushed, and the digest the push reports is
    registered without a name. *)
Example local_image_pushed :
  let out := run sample (uploadDockerResource localImage) pushed in
  resultOf out = Ok 9 /\
  count isRegistryCall (traceOf out) = 0%nat /\
  count isPushCall (traceOf out) = 5%nat /\
  firstAnswer registered (traceOf out)
  = Some (""%string, "sha256:cccc"%string).
Proof. vm_compute. repeat split; reflexivity. Qed.

(** [uploadResource] dispatches on the type of the resource. *)
Example uploadResource_dispatch :
  resultOf (run sample (uploadResource wordpress) resumable) = Ok 4 /\
  resultOf (run sample (uploadResource externalImage) ubuntuRegistry) = Ok 9 /\
  isErr (resultOf (run sample
                       (uploadResource
                          (mkParams ∅ "cs:~who/wordpress-3" "data" "data.zip"
                                    ""))
                       resumable)) = true.
Proof. vm_compute. repeat split; reflexivity. Qed.

(** * More properties of the upload code

    ** uploadFileResource: cleanup, arguments, outcome *)

Lemma callback_not_fileClose e : isCallbackEvent e = true -> isFileClose e = false.
Proof. revert e. by_call. Qed.
Lemma callback_not_newDisplay e : isCallbackEvent e = true -> isNewDisplay e = false.
Proof. revert e. by_call. Qed.
Lemma callback_not_displayClose e : isCallbackEvent e = true -> isDisplayClose e = false.
Proof. revert e. by_call. Qed.
Lemma callback_not_setDisplay on e : isCallbackEvent e = true -> isSetDisplay on e = false.
Proof. revert e. by_call. Qed.
Lemma callback_no_absPathAnswer e : isCallbackEvent e = true -> absPathAnswer e = None.
Proof. revert e. by_call. Qed.
Lemma callback_no_quietAnswer e : isCallbackEvent e = true -> quietAnswer e = None.
Proof. revert e. by_call. Qed.
Lemma callback_no_displayArgs e : isCallbackEvent e = true -> displayArgs e = None.
Proof. revert e. by_call. Qed.
Lemma callback_no_transferArgs e : isCallbackEvent e = true -> transferArgs e = None.
Proof. revert e. by_call. Qed.
Lemma callback_no_resumeContent e : isCallbackEvent e = true -> resumeContent e = None.
Proof. revert e. by_call. Qed.
Lemma callback_no_openedPath e : isCallbackEvent e = true -> openedPath e = None.
Proof. revert e. by_call. Qed.

#[export] Hint Resolve callback_not_fileClose callback_not_newDisplay
  callback_not_displayClose callback_not_setDisplay callback_no_absPathAnswer
  callback_no_quietAnswer callback_no_displayArgs callback_no_transferArgs
  callback_no_resumeContent callback_no_openedPath : trace.

(** What [wp] establishes of the events holds of the trace of every run. *)
Lemma run_wp_trace {W R : Type} (env : Env W) (p : Prog R) (w : W)
    (Q : list Event -> Prop) :
  wp p (fun t _ => Q t) -> Q (traceOf (run env p w)).
Proof. apply (run_wp env p w (fun t _ => Q t)). Qed.

Ltac unit_answers :=
  repeat match goal with a : unit |- _ => destruct a end.

(** X1.  The deferred calls of [uploadFileResource] run on every path and
    in reverse order.  When [os.Open] succeeded the file is closed exactly
    once, by the last call of all; when it failed, nothing is closed.  At
    most one progress display is created; it is closed exactly once, and it
    is installed in the filler once and removed from it once.  No transfer
    starts before the display is installed, and what follows its removal
    from the filler is the closing of the display and then of the file,
    nothing else: no transfer runs after it. *)
Theorem cleanup_runs_on_every_path {W : Type} (env : Env W) (w : W)
    (p : uploadResourceParams) :
  let t := traceOf (run env (uploadFileResource p) w) in
  match firstAnswer openAnswer t with
  | Some (Ok _) => count isFileClose t = 1%nat /\ after isFileClose t = []
  | _ => count isFileClose t = 0%nat
  end /\
  (count isNewDisplay t <= 1)%nat /\
  count isDisplayClose t = count isNewDisplay t /\
  count (isSetDisplay true) t = count isNewDisplay t /\
  count (isSetDisplay false) t = count isNewDisplay t /\
  count isTransfer (before (isSetDisplay true) t) = 0%nat /\
  (count isNewDisplay t = 1%nat ->
   after (isSetDisplay false) t
   = [event DisplayClose tt; event FileClose tt]).
Proof.
  cbv zeta. apply run_wp_trace.
  unfold uploadFileResource, consultCache, transfer.
  repeat wp_step; trace_eval; unit_answers; repeat split; (done || lia).
Qed.

Lemma cleanup_runs_on_every_path_witness :
  let t := traceOf (run sample (uploadFileResource wordpress) freshUpload) in
  count isNewDisplay t = 1%nat /\
  after (isSetDisplay false) t = [event DisplayClose tt; event FileClose tt].
Proof.
  cbv zeta.
  assert (count isNewDisplay
            (traceOf (run sample (uploadFileResource wordpress) freshUpload))
          = 1%nat) as Hn by (vm_compute; reflexivity).
  split; [exact Hn|].
  destruct (cleanup_runs_on_every_path sample freshUpload wordpress)
    as (_ & _ & _ & _ & _ & _ & Hafter).
  exact (Hafter Hn).
Defined.

Lemma callbackEvents_each (P : Event -> Prop) uploadIdCache p contentHash ids :
  (forall c id a, uploadIdCache = Some c ->
     P (event (CacheUpdate c id (charmId p) (resourceName p) contentHash) a)) ->
  (forall err,
     P (event (LoggerErrorf "cannot update uploadId cache: %v" err) tt)) ->
  Forall P (callbackEvents uploadIdCache p contentHash ids).
Proof.
  intros Hu Hl. destruct uploadIdCache as [c|]; unfold callbackEvents; [|done].
  induction ids as [|[id [err|]] ids IH]; [done|..];
    rewrite updateEvents_cons; repeat constructor; auto.
Qed.

(** Split a property of every event of a trace into one goal per event. *)
Ltac each_event :=
  repeat first
    [ apply Forall_nil_2
    | apply Forall_cons_2
    | apply Forall_app_2
    | apply callbackEvents_each; intros ].

(** X2.  Within one call of [uploadFileResource] every cache operation is
    made on the cache of the configured path with the expiry of 48 hours,
    and is made only when a cache path is configured; and the lookup, every
    update and the removal all name the same entry: the charm id and the
    resource name of the call, with the hash [readSeekerSHA256] returned
    for the file [os.Open] returned.  So the entry a call updates and
    removes is the one it looked up. *)
Theorem cache_calls_share_cache_and_key {W : Type} (env : Env W) (w : W)
    (p : uploadResourceParams) :
  let t := traceOf (run env (uploadFileResource p) w) in
  Forall (fun e =>
    (forall c, cacheOf e = Some c ->
       cachePath p <> ""%string /\
       c = NewUploadIdCache (cachePath p) uploadIdCacheExpiryDuration) /\
    (forall k, cacheKeyOf e = Some k ->
       exists f h,
         firstAnswer openAnswer t = Some (Ok f) /\
         (readSeekerSHA256_file f).1 = Ok h /\
         k = (charmId p, resourceName p, h))) t.
Proof.
  cbv zeta. apply run_wp_trace.
  unfold uploadFileResource, consultCache, transfer.
  repeat wp_step; each_event.
  all: split; [intros c' Hc|intros k Hk]; cbn in Hc || cbn in Hk;
    simplify_eq; try done.
  all: try (split; [by apply String.eqb_neq|done]).
  all: eexists _, _; split; [cbn; reflexivity|].
  all: match goal with
       | H : readSeekerSHA256_file _ = _ |- _ => rewrite H
       end; done.
Qed.

Lemma cache_calls_share_cache_and_key_witness :
  let t := traceOf (run sample (uploadFileResource wordpress) freshUpload) in
  let e := event (CacheLookup (NewUploadIdCache "/home/user/.cache/charm"
                                 uploadIdCacheExpiryDuration)
                    "cs:~who/wordpress-3" "data"
                    (SHA256.Sum (contents dataZip)))
                 (Err errCacheEntryNotFound) in
  t !! 4%nat = Some e /\
  cacheKeyOf e = Some dataKey /\
  exists f h,
    firstAnswer openAnswer t = Some (Ok f) /\
    (readSeekerSHA256_file f).1 = Ok h /\
    dataKey = (charmId wordpress, resourceName wordpress, h).
Proof.
  cbv zeta.
  assert (traceOf (run sample (uploadFileResource wordpress) freshUpload)
            !! 4%nat
          = Some (event (CacheLookup (NewUploadIdCache "/home/user/.cache/charm"
                                        uploadIdCacheExpiryDuration)
                           "cs:~who/wordpress-3" "data"
                           (SHA256.Sum (contents dataZip)))
                        (Err errCacheEntryNotFound))) as Hl
    by (vm_compute; reflexivity).
  split; [exact Hl|]. split; [reflexivity|].
  exact (proj2 (Forall_lookup_1 _ _ _ _
                  (cache_calls_share_cache_and_key sample freshUpload wordpress)
                  Hl) dataKey eq_refl).
Defined.

Lemma updatedIds_app (t1 t2 : list Event) :
  updatedIds (t1 ++ t2) = updatedIds t1 ++ updatedIds t2.
Proof.
  induction t1 as [|e t1 IH]; cbn; [done|].
  destruct (updatedId e); cbn; by rewrite IH.
Qed.

Lemma notifiedIds_app (t1 t2 : list Event) :
  notifiedIds (t1 ++ t2) = notifiedIds t1 ++ notifiedIds t2.
Proof.
  induction t1 as [|e t1 IH]; cbn; [done|]. by rewrite IH, app_assoc.
Qed.

Lemma callbackEvents_updatedIds c p contentHash ids answers :
  length answers = length ids ->
  updatedIds (callbackEvents (Some c) p contentHash (zip ids answers)) = ids.
Proof.
  unfold callbackEvents. revert answers.
  induction ids as [|id ids IH]; intros [|a answers] Hlen; try done.
  cbn [zip zip_with]. rewrite updateEvents_cons.
  injection Hlen as Hlen. destruct a; cbn; by rewrite IH.
Qed.

Lemma callbackEvents_notifiedIds uploadIdCache p contentHash ids :
  notifiedIds (callbackEvents uploadIdCache p contentHash ids) = [].
Proof.
  destruct uploadIdCache as [c|]; unfold callbackEvents; [|done].
  induction ids as [|[id [err|]] ids IH]; [done|..];
    rewrite updateEvents_cons; cbn; exact IH.
Qed.

(** X3.  With a cache path configured, the upload ids a call of
    [uploadFileResource] stores in the cache are the upload ids the store
    notifies during the transfers of the call, each one once and in the
    order notified, those of the resume before those of the fresh upload
    that follows it; with no cache path configured nothing is stored. *)
Theorem updates_follow_notifications {W : Type} (env : Env W) (w : W)
    (p : uploadResourceParams) :
  let t := traceOf (run env (uploadFileResource p) w) in
  updatedIds t
  = if String.eqb (cachePath p) "" then [] else notifiedIds t.
Proof.
  cbv zeta. apply run_wp_trace.
  unfold uploadFileResource, consultCache, transfer.
  repeat wp_step; trace_eval;
    repeat first
      [ rewrite updatedIds_app
      | rewrite notifiedIds_app
      | rewrite callbackEvents_updatedIds by assumption
      | rewrite callbackEvents_notifiedIds
      | progress cbn -[callbackEvents] ];
    repeat match goal with
    | H : (cachePath p =? "")%string = _ |- _ => rewrite H
    end;
    rewrite ?app_nil_r; try done; by destruct (cachePath p =? "")%string.
Qed.

(** X4.  A call of [uploadFileResource] removes the cache entry exactly
    when it succeeds and a cache path is configured, and then once: a call
    that fails makes no removal, so the upload id last stored stays in the
    cache for a later call to resume. *)
Theorem entry_removed_exactly_on_success {W : Type} (env : Env W) (w : W)
    (p : uploadResourceParams) :
  let t := traceOf (run env (uploadFileResource p) w) in
  let r := resultOf (run env (uploadFileResource p) w) in
  count isCacheRemove t
  = (if isOk r && negb (String.eqb (cachePath p) "") then 1 else 0)%nat.
Proof.
  cbv zeta. apply run_wp.
  unfold uploadFileResource, consultCache, transfer.
  repeat wp_step; trace_eval;
    repeat match goal with
    | H : (cachePath p =? "")%string = _ |- _ => rewrite H
    end; try done.
  all: by destruct (cachePath p =? "")%string.
Qed.

(** X5.  [uploadFileResource] returns a revision exactly when the store
    has reported a transfer successful, and the revision returned is the
    one the store reported: the one of the resume, or else the one of the
    fresh upload.  After that report no transfer is started. *)
Theorem revision_is_the_one_the_store_reported {W : Type} (env : Env W)
    (w : W) (p : uploadResourceParams) :
  let t := traceOf (run env (uploadFileResource p) w) in
  let r := resultOf (run env (uploadFileResource p) w) in
  (forall rev, r = Ok rev <-> firstAnswer successAnswer t = Some rev) /\
  (isErr r = true <-> firstAnswer successAnswer t = None) /\
  count isTransfer (after reportsSuccess t) = 0%nat.
Proof.
  cbv zeta. apply run_wp.
  unfold uploadFileResource, consultCache, transfer.
  repeat wp_step; trace_eval.
  all: repeat split; intros; simplify_eq; done.
Qed.

Lemma revision_is_the_one_the_store_reported_witness :
  let out := run sample (uploadFileResource wordpress) forgotten in
  resultOf out = Ok 5 /\ firstAnswer successAnswer (traceOf out) = Some 5.
Proof.
  cbv zeta.
  assert (resultOf (run sample (uploadFileResource wordpress) forgotten)
          = Ok 5) as Hr by (vm_compute; reflexivity).
  split; [exact Hr|].
  exact (proj1 (proj1 (revision_is_the_one_the_store_reported
                         sample forgotten wordpress) 5) Hr).
Defined.



(** Evaluate what has been read off a single event. *)
Ltac read_event :=
  repeat match goal with
  | H : _ (event _ _) = Some _ |- _ => progress cbn in H
  end;
  simplify_eq.

(** X7.  The arguments of a call of [uploadFileResource] reach the calls
    it makes unchanged.  The path made absolute is the reference of the
    call; the path opened is the absolute path the context answered; every
    transfer, the resume and the fresh upload alike, is called with the
    charm id and the resource name of the call, that absolute path, and the
    size [Stat] reported; and the display is created with the reference as
    given (not the absolute path), the answer of [Quiet] and that same
    size. *)
Theorem arguments_reach_the_transfers {W : Type} (env : Env W) (w : W)
    (p : uploadResourceParams) :
  let t := traceOf (run env (uploadFileResource p) w) in
  firstAnswer absPathArg t = Some (reference p) /\
  Forall (fun e =>
    (forall path, openedPath e = Some path ->
       firstAnswer absPathAnswer t = Some path) /\
    (forall c n path size, transferArgs e = Some (c, n, path, size) ->
       c = charmId p /\ n = resourceName p /\
       firstAnswer absPathAnswer t = Some path /\
       firstAnswer statAnswer t = Some (Ok size)) /\
    (forall name quiet size, displayArgs e = Some (name, quiet, size) ->
       name = reference p /\
       firstAnswer quietAnswer t = Some quiet /\
       firstAnswer statAnswer t = Some (Ok size))) t.
Proof.
  cbv zeta. apply run_wp_trace.
  unfold uploadFileResource, consultCache, transfer.
  repeat wp_step; (split; [done|]); each_event.
  all: repeat split; intros; read_event; trace_eval; done.
Qed.

Lemma arguments_reach_the_transfers_witness :
  let t := traceOf (run sample (uploadFileResource wordpress) freshUpload) in
  let e := event (ResumeUploadResource "" "cs:~who/wordpress-3" "data"
                    "/home/user/data.zip" dataZip 7) ["upload-2"%string] in
  t !! 8%nat = Some e /\
  transferArgs e
  = Some ("cs:~who/wordpress-3"%string, "data"%string,
          "/home/user/data.zip"%string, 7) /\
  firstAnswer absPathAnswer t = Some "/home/user/data.zip"%string /\
  firstAnswer statAnswer t = Some (Ok 7).
Proof.
  cbv zeta.
  assert (traceOf (run sample (uploadFileResource wordpress) freshUpload)
            !! 8%nat
          = Some (event (ResumeUploadResource "" "cs:~who/wordpress-3" "data"
                           "/home/user/data.zip" dataZip 7)
                        ["upload-2"%string])) as Hl
    by (vm_compute; reflexivity).
  split; [exact Hl|]. split; [reflexivity|].
  destruct (arguments_reach_the_transfers sample freshUpload wordpress)
    as [_ Hall].
  destruct (proj1 (proj2 (Forall_lookup_1 _ _ _ _ Hall Hl)) _ _ _ _ eq_refl)
    as (_ & _ & Hpath & Hsize).
  split; [exact Hpath|exact Hsize].
Defined.

(** A read moves the position and changes nothing else of the file. *)
Lemma File_Read_frame (n : nat) (f : File) :
  (File_Read n f).2 = setOffset f (offset (File_Read n f).2).
Proof.
  unfold File_Read. destruct n as [|n]; cbn; [by rewrite setOffset_same|].
  destruct (readFault f) as [[k err]|].
  - destruct (offset f =? k)%nat; cbn; [by rewrite setOffset_same|].
    destruct (take _ _); cbn; [by rewrite setOffset_same|done].
  - destruct (take _ _); cbn; [by rewrite setOffset_same|done].
Qed.

Lemma io_Copy_frame (fuel : nat) (h h' : list byte) (e : option error)
    (f f' : File) :
  io_Copy fuel h f = Some (h', e, f') -> f' = setOffset f (offset f').
Proof.
  revert h f. induction fuel as [|fuel IH]; intros h f; [done|].
  cbn [io_Copy Read File_ReadSeeker].
  pose proof (File_Read_frame copyBufSize f) as Hframe.
  destruct (File_Read copyBufSize f) as [[buf [er|]] f1]; cbn in Hframe.
  - intros [= <- <- <-]. exact Hframe.
  - intros Hcopy. apply IH in Hcopy. rewrite Hcopy, Hframe. done.
Qed.

(** When the hashing of a file succeeds, the file is left as it was but
    for the read position, which is at the start; the file has no seek
    fault; and the hash of a file without read fault is the SHA-256 of the
    bytes from the read position on. *)
Lemma readSeekerSHA256_file_ok (f f' : File) (h : list byte) :
  readSeekerSHA256_file f = (Ok h, f') ->
  f' = setOffset f 0 /\ seekFault f = None /\
  (readFault f = None -> h = SHA256.Sum (drop (offset f) (contents f))).
Proof.
  unfold readSeekerSHA256_file, readSeekerSHA256.
  destruct (io_Copy (fileFuel f) [] f) as [[[hs [e|]] f1]|] eqn:Hcopy;
    [done| |done].
  pose proof (io_Copy_frame _ _ _ _ _ _ Hcopy) as Hf1.
  cbn [Seek File_ReadSeeker]. unfold File_Seek.
  assert (seekFault f1 = seekFault f) as Hs by (by rewrite Hf1).
  rewrite Hs. destruct (seekFault f) as [err|]; [done|].
  cbn. intros [= <- <-]. split; [by rewrite Hf1|]. split; [done|].
  intros Hr. rewrite io_Copy_file_ok in Hcopy by (done || unfold fileFuel; lia).
  by injection Hcopy as <- _.
Qed.

Arguments SHA256.Sum : simpl never.

(** X8.  [ResumeUploadResource] is handed the file ready to be read from
    its start.  With no cache path configured it is the file as [os.Open]
    returned it.  With a cache path configured the file has been read to
    its end by the hashing, which has succeeded, and the resume is handed
    that file with the read position back at the start and nothing else
    changed; for a file without read fault the hash used as cache key is
    the SHA-256 of the bytes from the position where the file was opened to
    its end. *)
Theorem resume_is_handed_the_file_rewound {W : Type} (env : Env W) (w : W)
    (p : uploadResourceParams) (g : File) :
  let t := traceOf (run env (uploadFileResource p) w) in
  firstAnswer resumeContent t = Some g ->
  exists f,
    firstAnswer openAnswer t = Some (Ok f) /\
    if String.eqb (cachePath p) "" then g = f
    else
      g = setOffset f 0 /\
      exists h,
        (readSeekerSHA256_file f).1 = Ok h /\
        firstAnswer cacheKeyOf t = Some (charmId p, resourceName p, h) /\
        (readFault f = None ->
         h = SHA256.Sum (drop (offset f) (contents f))).
Proof.
  cbv zeta. apply run_wp_trace.
  unfold uploadFileResource, consultCache, transfer.
  repeat wp_step; trace_eval; intros Hg; simplify_eq.
  all: eexists; (split; [reflexivity|]); try done.
  all: match goal with
       | H : readSeekerSHA256_file _ = _ |- _ =>
           rewrite H; apply readSeekerSHA256_file_ok in H as (-> & _ & Hsum)
       end.
  all: split; [done|]; eexists; split; [reflexivity|]; split; done.
Qed.

Lemma resume_is_handed_the_file_rewound_witness :
  let t := traceOf (run sample (uploadFileResource wordpress) freshUpload) in
  firstAnswer resumeContent t = Some dataZip /\
  exists f,
    firstAnswer openAnswer t = Some (Ok f) /\
    dataZip = setOffset f 0 /\
    exists h,
      (readSeekerSHA256_file f).1 = Ok h /\
      firstAnswer cacheKeyOf t = Some ("cs:~who/wordpress-3"%string,
                                       "data"%string, h).
Proof.
  cbv zeta.
  assert (firstAnswer resumeContent
            (traceOf (run sample (uploadFileResource wordpress) freshUpload))
          = Some dataZip) as Hg by (vm_compute; reflexivity).
  split; [exact Hg|].
  destruct (resume_is_handed_the_file_rewound sample freshUpload wordpress
              dataZip Hg) as (f & Ho & Hf & h & Hh & Hk & _).
  exists f. split; [exact Ho|]. split; [exact Hf|].
  exists h. split; [exact Hh|exact Hk].
Defined.

(** ** uploadFileResource: the cache miss and the fallback *)

Lemma callback_not_infof e : isCallbackEvent e = true -> isInfof e = false.
Proof. revert e. by_call. Qed.
Lemma callback_no_infoMessage e :
  isCallbackEvent e = true -> infoMessage e = None.
Proof. revert e. by_call. Qed.
Lemma callback_not_displayError e :
  isCallbackEvent e = true -> isDisplayError e = false.
Proof. revert e. by_call. Qed.
Lemma callback_no_displayedError e :
  isCallbackEvent e = true -> displayedError e = None.
Proof. revert e. by_call. Qed.

#[export] Hint Resolve callback_not_infof callback_no_infoMessage
  callback_not_displayError callback_no_displayedError : trace.

(** X9.  In a call of [uploadFileResource] a lookup that finds no entry
    is no error: when the cause of the error the lookup answers is the
    not-found error of the cache, also under a wrapper that records it as
    cause, the call goes on to one [ResumeUploadResource] with an empty
    upload id, so to a fresh upload, and prints nothing.  When the lookup
    answers an entry, the call prints "resuming previous upload", once, and
    resumes with the upload id of the entry.  When the lookup fails with
    another cause, the call returns the masked error and starts no
    transfer.  The notice is printed in no other case. *)
Theorem cache_miss_is_a_fresh_upload {W : Type} (env : Env W) (w : W)
    (p : uploadResourceParams) :
  let t := traceOf (run env (uploadFileResource p) w) in
  let r := resultOf (run env (uploadFileResource p) w) in
  match firstAnswer lookupAnswer t with
  | Some (Ok entry) =>
      count isInfof t = 1%nat /\
      firstAnswer infoMessage t = Some "resuming previous upload"%string /\
      firstAnswer resumeToken t = Some (UploadId entry)
  | Some (Err err) =>
      count isInfof t = 0%nat /\
      if isErrCacheEntryNotFound (Cause err)
      then count isResume t = 1%nat /\
           firstAnswer resumeToken t = Some ""%string
      else count isTransfer t = 0%nat /\ r = Err (errgo_Mask err)
  | None => count isInfof t = 0%nat
  end.
Proof.
  cbv zeta. apply run_wp.
  unfold uploadFileResource, consultCache, transfer.
  repeat wp_step; trace_eval; use_cache_miss; done.
Qed.

Lemma cache_miss_is_a_fresh_upload_witness :
  let t := traceOf (run sample (uploadFileResource wordpress) freshUpload) in
  firstAnswer lookupAnswer t = Some (Err errCacheEntryNotFound) /\
  count isInfof t = 0%nat /\
  count isResume t = 1%nat /\
  firstAnswer resumeToken t = Some ""%string.
Proof.
  cbv zeta.
  assert (firstAnswer lookupAnswer
            (traceOf (run sample (uploadFileResource wordpress) freshUpload))
          = Some (Err errCacheEntryNotFound)) as Hl
    by (vm_compute; reflexivity).
  split; [exact Hl|].
  pose proof (cache_miss_is_a_fresh_upload sample freshUpload wordpress) as H.
  cbv zeta in H. rewrite Hl in H.
  destruct H as (Hi & Hr & Ht).
  split; [exact Hi|]. split; [exact Hr|exact Ht].
Defined.

(** X10.  Whether a fresh upload follows the resume is decided by the
    cause of the error of the resume alone, with or without a cache and
    whatever upload id the resume carried: the call makes one
    [UploadResource] when the resume fails with the cause
    [csclient.ErrUploadNotFound], and none otherwise.  Before each fresh
    upload, and in no other case, the display is told "previous upload
    seems to have expired; restarting.".  The fresh upload is given the
    same charm id, resource name, path and size as the resume; and when the
    resume fails with another cause the call returns that error under
    "can't upload resource". *)
Theorem fallback_is_decided_by_the_cause {W : Type} (env : Env W) (w : W)
    (p : uploadResourceParams) :
  let t := traceOf (run env (uploadFileResource p) w) in
  let r := resultOf (run env (uploadFileResource p) w) in
  count isUpload t
  = match firstAnswer resumeAnswer t with
    | Some (Err err) => if isErrUploadNotFound (Cause err) then 1 else 0
    | _ => 0
    end%nat /\
  count isDisplayError t = count isUpload t /\
  count isUpload (before isDisplayError t) = 0%nat /\
  match firstAnswer displayedError t with
  | Some err =>
      err = errgo_New "previous upload seems to have expired; restarting."
  | None => count isUpload t = 0%nat
  end /\
  (count isUpload t = 1%nat ->
     firstAnswer transferArgs (after isDisplayError t)
     = firstAnswer transferArgs t) /\
  (forall err, firstAnswer resumeAnswer t = Some (Err err) ->
     isErrUploadNotFound (Cause err) = false ->
     r = Err (errgo_Notef err "can't upload resource")).
Proof.
  cbv zeta. apply run_wp.
  unfold uploadFileResource, consultCache, transfer.
  repeat wp_step; trace_eval; use_not_found.
  all: repeat split; intros; simplify_eq; try done; congruence.
Qed.

Lemma fallback_is_decided_by_the_cause_witness :
  let out := run sample (uploadFileResource wordpressNoCache) forgotten in
  firstAnswer resumeToken (traceOf out) = Some ""%string /\
  firstAnswer resumeAnswer (traceOf out) = Some (Err uploadNotFound) /\
  count isUpload (traceOf out) = 1%nat /\
  firstAnswer transferArgs (after isDisplayError (traceOf out))
  = firstAnswer transferArgs (traceOf out).
Proof.
  cbv zeta.
  assert (firstAnswer resumeAnswer
            (traceOf (run sample (uploadFileResource wordpressNoCache)
                          forgotten))
          = Some (Err uploadNotFound)) as Ha by (vm_compute; reflexivity).
  destruct (fallback_is_decided_by_the_cause sample forgotten wordpressNoCache)
    as (Hn & _ & _ & _ & Hargs & _).
  rewrite Ha in Hn.
  split; [vm_compute; reflexivity|]. split; [exact Ha|].
  split; [exact Hn|exact (Hargs Hn)].
Defined.

(** ** The registry digest resolver: what is asked, and of whom *)

(** X11.  The resolution of a digest first asks the registry for its API
    root, once, before anything else: the endpoint of the reference, not
    the URL of a manifest.  When that request fails, the resolution ends
    there with the error "cannot get registry authorization response",
    masked, and no request for a manifest is built or sent.  Every request
    for a manifest is handed to one and the same authorizer: the one built
    from the response to the API root, for the repository path of the
    reference and the single action pull. *)
Theorem authorization_precedes_every_request {W : Type} (env : Env W)
    (w : W) (p : uploadResourceParams) (ref : Named) :
  let t := traceOf (run env (imageDigestForReference p ref) w) in
  let r := resultOf (run env (imageDigestForReference p ref) w) in
  before isHttpGet t = [] /\
  count isHttpGet t = 1%nat /\
  firstAnswer getURL t = Some (registryEndpointForReference ref) /\
  (forall err, firstAnswer getAnswer t = Some (Err err) ->
     count isRegistryCall t = 1%nat /\
     r = Err (errgo_Mask
                (errgo_Notef err
                   "cannot get registry authorization response"))) /\
  Forall (fun e => forall m req, modifyArgs e = Some (m, req) ->
     exists resp,
       firstAnswer getAnswer t = Some (Ok resp) /\
       m = mkAuthorizer resp (reference_Path ref) ["pull"%string]) t.
Proof.
  cbv zeta. apply run_wp. unfold_resolver.
  remember (registryEndpointForReference ref) as endpoint.
  repeat resolver_step; cbn.
  all: repeat split; intros; simplify_eq; try done.
  all: each_event; intros; read_event; by eexists.
Qed.

Lemma authorization_precedes_every_request_witness :
  let out := run sample (imageDigestForReference externalImage ubuntu)
                 unreachableRegistry in
  firstAnswer getAnswer (traceOf out) = Some (Err noSuchHost) /\
  count isRegistryCall (traceOf out) = 1%nat /\
  resultOf out
  = Err (errgo_Mask (errgo_Notef noSuchHost
                       "cannot get registry authorization response")).
Proof.
  cbv zeta.
  assert (firstAnswer getAnswer
            (traceOf (run sample (imageDigestForReference externalImage ubuntu)
                          unreachableRegistry))
          = Some (Err noSuchHost)) as Hg by reflexivity.
  split; [exact Hg|].
  destruct (authorization_precedes_every_request sample unreachableRegistry
              externalImage ubuntu) as (_ & _ & _ & Hfail & _).
  exact (Hfail _ Hg).
Defined.

(** Find an element in a list given by its elements, by its syntax. *)
Ltac pick_member :=
  cbn [In];
  repeat lazymatch goal with
  | |- ?x = ?y \/ _ => first [ constr_eq x y; left; exact eq_refl | right ]
  end.

(** X12.  Every request the resolution builds is a HEAD request whose only
    header is Accept, for the manifest media type of version 2; its URL is
    one of the URLs a request was created for, in order; what is sent to
    the registry is, request by request, what the authorizer answered, so
    nothing is sent that the authorizer has not seen or has refused; what
    is logged is the method and the URL of the request with the header as
    the authorizer left it;
    and at most two requests are made. *)
Theorem every_request_is_an_authorized_head {W : Type} (env : Env W)
    (w : W) (p : uploadResourceParams) (ref : Named) :
  let t := traceOf (run env (imageDigestForReference p ref) w) in
  Forall (fun req => Method req = "HEAD"%string /\
                     ReqHeader req = acceptManifestV2) (built t) /\
  map URL (built t) `prefix_of` requestURLs t /\
  sentRequests t = authorized t /\
  Forall (fun e =>
    (forall method url, newRequestArgs e = Some (method, url) ->
       method = "HEAD"%string) /\
    (forall method url h, loggedRequest e = Some (method, url, h) ->
       method = "HEAD"%string /\ In url (requestURLs t) /\
       exists req, In req (authorized t) /\ h = ReqHeader req)) t /\
  (length (requestURLs t) <= 2)%nat.
Proof.
  cbv zeta. apply run_wp_trace. unfold_resolver.
  remember (registryEndpointForReference ref) as endpoint.
  repeat resolver_step; cbn.
  all: split; [by repeat constructor|].
  all: split; [first [by eexists [] | by eexists [_]]|].
  all: split; [done|].
  all: split; [|lia].
  all: each_event; split; intros; read_event; try done.
  all: split; [done|]; split; [pick_member|].
  all: match goal with
       | |- exists req, _ /\ ReqHeader ?v = ReqHeader req => exists v
       end; split; [pick_member|reflexivity].
Qed.

Lemma every_request_is_an_authorized_head_witness :
  let t := traceOf (run sample (imageDigestForReference externalImage ubuntu)
                        ubuntuRegistry) in
  let url := "https://registry-1.docker.io/v2/library/ubuntu/manifests/18.04"
             %string in
  let e := event (LogPrintf "HEAD" url acceptManifestV2) tt in
  t !! 4%nat = Some e /\
  In url (requestURLs t) /\
  exists req, In req (authorized t) /\ acceptManifestV2 = ReqHeader req.
Proof.
  cbv zeta.
  assert (traceOf (run sample (imageDigestForReference externalImage ubuntu)
                       ubuntuRegistry) !! 4%nat
          = Some (event (LogPrintf "HEAD"
                    "https://registry-1.docker.io/v2/library/ubuntu/manifests/18.04"
                    acceptManifestV2) tt)) as Hl by reflexivity.
  split; [exact Hl|].
  destruct (every_request_is_an_authorized_head sample ubuntuRegistry
              externalImage ubuntu) as (_ & _ & _ & Hall & _).
  exact (proj2 (proj2 (Forall_lookup_1 _ _ _ _ Hall Hl) _ _ _ eq_refl)).
Defined.

Lemma prefix_trans (a b c : string) :
  String.prefix a b = true -> String.prefix b c = true ->
  String.prefix a c = true.
Proof.
  revert b c. induction a as [|x a IH]; intros [|y b] [|z c]; cbn; try done.
  destruct (Ascii.ascii_dec x y) as [->|]; [|done].
  destruct (Ascii.ascii_dec y z) as [->|]; [|done].
  apply IH.
Qed.

Lemma endpoint_https (ref : Named) :
  String.prefix "https://" (registryEndpointForReference ref) = true.
Proof. unfold registryEndpointForReference. cbv zeta. apply prefix_append. Qed.

(** X13.  The resolution talks to one host only, over https.  The
    endpoint of a reference starts with "https://"; it is the registry
    registry-1.docker.io for the domain docker.io and the domain itself for
    every other; the request for the API root goes to the endpoint, and
    the URL of every request for a manifest starts with the endpoint, hence
    with "https://". *)
Theorem registry_is_contacted_over_https {W : Type} (env : Env W) (w : W)
    (p : uploadResourceParams) (ref : Named) :
  let t := traceOf (run env (imageDigestForReference p ref) w) in
  let endpoint := registryEndpointForReference ref in
  strings_HasPrefix endpoint "https://" = true /\
  endpoint = ("https://"
              ++ (if String.eqb (refDomain ref) "docker.io"
                  then "registry-1.docker.io" else refDomain ref)
              ++ "/v2/")%string /\
  Forall (fun e => forall u, getURL e = Some u -> u = endpoint) t /\
  Forall (fun u => strings_HasPrefix u endpoint = true /\
                   strings_HasPrefix u "https://" = true) (requestURLs t).
Proof.
  cbv zeta. split; [apply endpoint_https|]. split; [done|].
  assert (forall s, strings_HasPrefix (registryEndpointForReference ref ++ s)
                      (registryEndpointForReference ref) = true /\
                    strings_HasPrefix (registryEndpointForReference ref ++ s)
                      "https://" = true) as Hurl.
  { intros s. unfold strings_HasPrefix. split; [apply prefix_append|].
    eapply prefix_trans; [apply endpoint_https|apply prefix_append]. }
  apply run_wp_trace. unfold_resolver.
  remember (registryEndpointForReference ref) as endpoint.
  repeat resolver_step; cbn.
  all: split; [each_event; intros; read_event; done|].
  all: repeat constructor; apply Hurl.
Qed.

Lemma registry_is_contacted_over_https_witness :
  let t := traceOf (run sample (imageDigestForReference externalImage ubuntu)
                        ubuntuRegistry) in
  let e := event (HttpGet "https://registry-1.docker.io/v2/")
                 (Ok unauthorized) in
  t !! 0%nat = Some e /\
  "https://registry-1.docker.io/v2/"%string
  = registryEndpointForReference ubuntu.
Proof.
  cbv zeta.
  assert (traceOf (run sample (imageDigestForReference externalImage ubuntu)
                       ubuntuRegistry) !! 0%nat
          = Some (event (HttpGet "https://registry-1.docker.io/v2/")
                        (Ok unauthorized))) as Hl by reflexivity.
  split; [exact Hl|].
  destruct (registry_is_contacted_over_https sample ubuntuRegistry
              externalImage ubuntu) as (_ & _ & Hall & _).
  exact (Forall_lookup_1 _ _ _ _ Hall Hl _ eq_refl).
Defined.

Lemma referenceTagOrDigest_cases (ref : Named) :
  referenceTagOrDigest ref = tagOrDigest ref.
Proof.
  unfold referenceTagOrDigest, tagOrDigest, reference_TagNameOnly,
    reference_IsNameOnly.
  by destruct ref as [d pth [tag|] [dig|]].
Qed.

(** X14.  The first manifest the resolution asks for is named by the tag
    of the reference when it has one, also when it has a digest as well; by
    its digest when it has no tag; and by the tag "latest" when it has
    neither: [referenceTagOrDigest] never reaches its panic.  So for a
    reference with both a tag and a digest, the one request made asks for
    the tag, and a digest the resolution returns is the digest of the
    reference: the registry is never asked about that digest. *)
Theorem first_request_prefers_the_tag {W : Type} (env : Env W) (w : W)
    (p : uploadResourceParams) (ref : Named) :
  let t := traceOf (run env (imageDigestForReference p ref) w) in
  let r := resultOf (run env (imageDigestForReference p ref) w) in
  referenceTagOrDigest ref = tagOrDigest ref /\
  (forall u, firstAnswer requestURL t = Some u ->
     u = manifestURL ref (tagOrDigest ref)) /\
  (forall tag d, refTag ref = Some tag -> refDigest ref = Some d ->
     (forall u, In u (requestURLs t) -> u = manifestURL ref tag) /\
     (forall d', r = Ok d' -> d' = d)).
Proof.
  cbv zeta. split; [apply referenceTagOrDigest_cases|].
  rewrite <- referenceTagOrDigest_cases.
  assert (forall tag d, refTag ref = Some tag -> refDigest ref = Some d ->
            referenceTagOrDigest ref = tag) as Htag.
  { intros tag d Ht Hd. rewrite referenceTagOrDigest_cases.
    unfold tagOrDigest. by rewrite Ht. }
  unfold manifestURL.
  apply run_wp. unfold_resolver.
  remember (registryEndpointForReference ref) as endpoint.
  remember (referenceTagOrDigest ref) as first.
  repeat resolver_step; cbn.
  all: split; [intros; simplify_eq; done|].
  all: intros tag d Ht Hd; specialize (Htag _ _ Ht Hd); subst first.
  all: split; [|intros; simplify_eq; congruence].
  all: cbn; intros u Hu; repeat destruct Hu as [Hu|Hu]; simplify_eq; done.
Qed.

Lemma first_request_prefers_the_tag_witness :
  let out := run sample (imageDigestForReference externalImage bothRef)
                 bothRegistry in
  refTag bothRef = Some "18.04"%string /\
  refDigest bothRef = Some "sha256:aaaa"%string /\
  resultOf out = Ok "sha256:aaaa"%string /\
  (forall u, In u (requestURLs (traceOf out)) ->
     u = manifestURL bothRef "18.04").
Proof.
  cbv zeta.
  destruct (first_request_prefers_the_tag sample bothRegistry externalImage
              bothRef) as (_ & _ & Hboth).
  destruct (Hboth "18.04"%string "sha256:aaaa"%string eq_refl eq_refl)
    as [Hurls _].
  split; [reflexivity|]. split; [reflexivity|]. split; [reflexivity|].
  exact Hurls.
Defined.

(** X15.  The resolution closes the body of every response it receives,
    once: the response to the request for the API root, and the response
    to each request for a manifest, whether its status is 200 or not; and
    it closes nothing else. *)
Theorem every_response_body_is_closed {W : Type} (env : Env W) (w : W)
    (p : uploadResourceParams) (ref : Named) :
  let t := traceOf (run env (imageDigestForReference p ref) w) in
  count isBodyClose t = count opensBody t /\
  (count opensBody t <= 3)%nat /\
  count isBodyClose (before opensBody t) = 0%nat.
Proof.
  cbv zeta. apply run_wp_trace. unfold_resolver.
  remember (registryEndpointForReference ref) as endpoint.
  repeat resolver_step; cbn; repeat split; (done || lia).
Qed.

(** ** uploadDockerResource: the push of a local image *)

(** The aux callback over the messages of a push: one log per message
    that fails to unmarshal, and the status the messages leave. *)
Lemma wp_unmarshalAux_exact (ms : list auxMessage) (s : finalStatusT)
    (Q : list Event -> finalStatusT -> Prop) :
  Q (auxEvents ms) (fold_left (fun s m => json_Unmarshal m s) ms s) ->
  wp (unmarshalAux ms s) Q.
Proof.
  revert s Q. induction ms as [|m ms IH]; intros s Q; cbn; [done|].
  unfold auxEvents. cbn [flat_map].
  destruct (auxErr m) as [err|]; cbn.
  - intros HQ []. apply IH. exact HQ.
  - intros HQ. apply IH. exact HQ.
Qed.

Lemma auxEvents_each (P : Event -> Prop) (ms : list auxMessage) :
  (forall err,
     P (event (LoggerErrorf "cannot unmarshal aux data: %v" err) tt)) ->
  Forall P (auxEvents ms).
Proof.
  intros HP. unfold auxEvents.
  induction ms as [|m ms IH]; cbn; [done|].
  destruct (auxErr m); cbn; [constructor|]; auto.
Qed.

Lemma auxEvents_logged (ms : list auxMessage) :
  count isLoggerCall (auxEvents ms) = length (omap auxErr ms).
Proof.
  unfold auxEvents. induction ms as [|m ms IH]; cbn; [done|].
  destruct (auxErr m); cbn; by rewrite IH.
Qed.

Lemma auxEvents_none (P : Event -> bool) (ms : list auxMessage) :
  (forall e, isLoggerCall e = true -> P e = false) ->
  count P (auxEvents ms) = 0%nat.
Proof.
  intros HP. apply count_none, auxEvents_each. intros err. by apply HP.
Qed.

Lemma auxEvents_answers {A : Type} (f : Event -> option A)
    (ms : list auxMessage) :
  (forall e, isLoggerCall e = true -> f e = None) ->
  Forall (fun e => f e = None) (auxEvents ms).
Proof. intros Hf. apply auxEvents_each. intros err. by apply Hf. Qed.

Lemma logger_no_streamAnswer e : isLoggerCall e = true -> streamAnswer e = None.
Proof. revert e. by_call. Qed.
Lemma logger_no_registered e : isLoggerCall e = true -> registered e = None.
Proof. revert e. by_call. Qed.
Lemma logger_no_registrationAnswer e :
  isLoggerCall e = true -> registrationAnswer e = None.
Proof. revert e. by_call. Qed.
Lemma logger_not_registration e :
  isLoggerCall e = true -> isAddDockerResource e = false.
Proof. revert e. by_call. Qed.
Lemma logger_not_probe e : isLoggerCall e = true -> isTerminalProbe e = false.
Proof. revert e. by_call. Qed.
Lemma logger_not_push e : isLoggerCall e = true -> isPushCall e = false.
Proof. revert e. by_call. Qed.

Create HintDb aux.
#[export] Hint Resolve logger_no_streamAnswer logger_no_registered
  logger_no_registrationAnswer logger_not_registration logger_not_probe
  logger_not_push logger_not_registry : aux.

Ltac push_step :=
  first
    [ resolver_step
    | lazymatch goal with
      | |- wp (bind (unmarshalAux _ _) _) _ =>
          apply wp_bind, wp_unmarshalAux_exact
      end ].

(** Evaluate the readers of traces over the events of the aux callback. *)
Ltac aux_eval :=
  fold finalStatusOf;
  repeat first
    [ progress cbn -[auxEvents finalStatusOf]
    | rewrite count_app
    | rewrite auxEvents_logged
    | rewrite (auxEvents_none _ _) by auto with aux
    | rewrite firstAnswer_app by (apply auxEvents_answers; auto with aux) ].

Lemma fsDigest_fold (ms : list auxMessage) (s : finalStatusT) :
  fsDigest (fold_left (fun s m => json_Unmarshal m s) ms s)
  = default (fsDigest s) (last (omap auxDigest ms)).
Proof.
  revert s. induction ms as [|m ms IH]; intros s; cbn; [done|].
  rewrite IH. cbn. destruct (auxDigest m) as [d|]; cbn; [|done].
  rewrite last_cons. by destruct (last (omap auxDigest ms)).
Qed.

(** X16.  The push of a local image uses what the store answered.  The
    store is asked for the upload info of the charm and the resource of the
    call, first of all; the local image, named by the reference as parsed,
    is tagged with the image name of the upload info; the credentials
    marshalled are the user name and the password of the upload info; the
    image pushed is the one of the upload info, with the credentials as
    marshalled; and a registration, for the charm and the resource of the
    call, carries an empty image name and a digest that is not empty: the
    one the aux messages of a push that ended without error left.  So each
    of these steps is made only when the steps before it succeeded. *)
Theorem push_uses_the_upload_info {W : Type} (env : Env W) (w : W)
    (p : uploadResourceParams) (ref : Named) :
  let t := traceOf (run env (pushDockerResource p ref) w) in
  before isUploadInfo t = [] /\
  firstAnswer infoArgs t = Some (charmId p, resourceName p) /\
  Forall (fun e =>
    (forall src tgt, tagArgs e = Some (src, tgt) ->
       src = Named_String ref /\
       exists info, firstAnswer infoAnswer t = Some (Ok info) /\
                    tgt = ImageName info) /\
    (forall user passwd, marshalArgs e = Some (user, passwd) ->
       exists info, firstAnswer infoAnswer t = Some (Ok info) /\
                    user = Username info /\ passwd = Password info) /\
    (forall image authData, pushArgs e = Some (image, authData) ->
       firstAnswer marshalAnswer t = Some (Ok authData) /\
       exists info, firstAnswer infoAnswer t = Some (Ok info) /\
                    image = ImageName info) /\
    (forall c n name digest,
       registrationArgs e = Some (c, n, name, digest) ->
       c = charmId p /\ n = resourceName p /\ name = ""%string /\
       digest <> ""%string /\
       exists ms, firstAnswer streamAnswer t = Some (ms, None) /\
                  digest = fsDigest (finalStatusOf ms))) t.
Proof.
  cbv zeta. apply run_wp_trace. unfold pushDockerResource.
  repeat push_step; (split; [done|]); (split; [done|]).
  all: repeat first
         [ apply Forall_nil_2 | apply Forall_cons_2 | apply Forall_app_2
         | apply auxEvents_each; intros ].
  all: repeat split; intros; read_event; try done.
  all: try (by eexists).
  all: try (by apply String.eqb_neq).
  all: eexists; split; [aux_eval; reflexivity|done].
Qed.

Lemma push_uses_the_upload_info_witness :
  let t := traceOf (run sample (pushDockerResource localImage ubuntu)
                        pushed) in
  let e := event (AddDockerResource "cs:~who/wordpress-3" "image" ""
                                    "sha256:cccc") (Ok 9) in
  t !! 7%nat = Some e /\
  exists ms, firstAnswer streamAnswer t = Some (ms, None) /\
             "sha256:cccc"%string = fsDigest (finalStatusOf ms).
Proof.
  cbv zeta.
  assert (traceOf (run sample (pushDockerResource localImage ubuntu) pushed)
            !! 7%nat
          = Some (event (AddDockerResource "cs:~who/wordpress-3" "image" ""
                                           "sha256:cccc") (Ok 9))) as Hl
    by reflexivity.
  split; [exact Hl|].
  destruct (push_uses_the_upload_info sample pushed localImage ubuntu)
    as (_ & _ & Hall).
  destruct (proj2 (proj2 (proj2 (Forall_lookup_1 _ _ _ _ Hall Hl)))
              _ _ _ _ eq_refl) as (_ & _ & _ & _ & Hms).
  exact Hms.
Defined.

(** X17.  The outcome of the push is decided by the message stream and
    the registration.  When the stream ends with an error, the call fails
    with "failed to upload" and registers nothing, whatever digest the
    messages carried.  When it ends without error and the messages left no
    digest, the call fails with "no digest found upload response" and
    registers nothing.  When they left a digest, the call registers it,
    once, under an empty image name, and the result is the answer of the
    store: its revision, or its error under "cannot add docker resource".
    The call returns a revision only when the store answered the
    registration with it. *)
Theorem push_registers_the_reported_digest {W : Type} (env : Env W) (w : W)
    (p : uploadResourceParams) (ref : Named) :
  let t := traceOf (run env (pushDockerResource p ref) w) in
  let r := resultOf (run env (pushDockerResource p ref) w) in
  (count isAddDockerResource t <= 1)%nat /\
  (forall rev, r = Ok rev <-> firstAnswer registrationAnswer t = Some (Ok rev)) /\
  (forall ms e, firstAnswer streamAnswer t = Some (ms, e) ->
     match e with
     | Some err =>
         r = Err (errgo_Notef err "failed to upload") /\
         count isAddDockerResource t = 0%nat
     | None =>
         if String.eqb (fsDigest (finalStatusOf ms)) "" then
           r = Err (errgo_New "no digest found upload response") /\
           count isAddDockerResource t = 0%nat
         else
           count isAddDockerResource t = 1%nat /\
           firstAnswer registered t
           = Some (""%string, fsDigest (finalStatusOf ms)) /\
           match firstAnswer registrationAnswer t with
           | Some (Ok rev) => r = Ok rev
           | Some (Err err) =>
               r = Err (errgo_Notef err "cannot add docker resource")
           | None => False
           end
     end).
Proof.
  cbv zeta. apply run_wp. unfold pushDockerResource.
  repeat push_step; aux_eval.
  all: split; [lia|]; split; [split; intros; simplify_eq; done|].
  all: intros ms' e' Hs; simplify_eq; try done.
  all: unfold finalStatusOf;
    repeat match goal with
    | H : (fsDigest _ =? "")%string = _ |- _ => rewrite H
    end; done.
Qed.

Lemma push_registers_the_reported_digest_witness :
  let out := run sample (pushDockerResource localImage ubuntu) pushedTwice in
  firstAnswer streamAnswer (traceOf out) = Some (pushMessages, None) /\
  count isAddDockerResource (traceOf out) = 1%nat /\
  firstAnswer registered (traceOf out)
  = Some (""%string, fsDigest (finalStatusOf pushMessages)).
Proof.
  cbv zeta.
  assert (firstAnswer streamAnswer
            (traceOf (run sample (pushDockerResource localImage ubuntu)
                          pushedTwice))
          = Some (pushMessages, None)) as Hs by reflexivity.
  split; [exact Hs|].
  destruct (push_registers_the_reported_digest sample pushedTwice localImage
              ubuntu) as (_ & _ & Hstream).
  destruct (Hstream _ _ Hs) as (Hn & Hreg & _).
  split; [exact Hn|exact Hreg].
Defined.

(** X18.  A message of the push whose aux data fails to unmarshal does
    not fail the push: the failure is logged, one log per such message, and
    the messages that follow are still read.  Each message overwrites the
    fields of the status it carries, so the digest the push is left with is
    the digest of the last message that carries one, and is empty when none
    does. *)
Theorem aux_errors_are_logged_last_digest_wins {W : Type} (env : Env W)
    (w : W) (p : uploadResourceParams) (ref : Named)
    (ms : list auxMessage) (e : option error) :
  let t := traceOf (run env (pushDockerResource p ref) w) in
  firstAnswer streamAnswer t = Some (ms, e) ->
  count isLoggerCall t = length (omap auxErr ms) /\
  fsDigest (finalStatusOf ms) = default ""%string (last (omap auxDigest ms)) /\
  (forall d, e = None -> last (omap auxDigest ms) = Some d ->
     d <> ""%string -> firstAnswer registered t = Some (""%string, d)).
Proof.
  cbv zeta. apply run_wp_trace. unfold pushDockerResource.
  repeat push_step; aux_eval; intros Hs; simplify_eq.
  all: (split; [done|]); (split; [apply fsDigest_fold|]).
  all: intros d He Hd Hne; simplify_eq; try done.
  all: rewrite fsDigest_fold, Hd in *; cbn in *; try done.
  all: match goal with
       | H : (_ =? "")%string = true |- _ => by apply String.eqb_eq in H
       end.
Qed.

Lemma aux_errors_are_logged_last_digest_wins_witness :
  let t := traceOf (run sample (pushDockerResource localImage ubuntu)
                        pushedTwice) in
  firstAnswer streamAnswer t = Some (pushMessages, None) /\
  count isLoggerCall t = 1%nat /\
  firstAnswer registered t = Some (""%string, "sha256:dddd"%string).
Proof.
  cbv zeta.
  assert (firstAnswer streamAnswer
            (traceOf (run sample (pushDockerResource localImage ubuntu)
                          pushedTwice))
          = Some (pushMessages, None)) as Hs by reflexivity.
  split; [exact Hs|].
  destruct (aux_errors_are_logged_last_digest_wins sample pushedTwice
              localImage ubuntu _ _ Hs) as (Hlog & _ & Hlast).
  split; [exact Hlog|].
  apply Hlast; [reflexivity|reflexivity|discriminate].
Defined.



(** ** uploadResource *)

Lemma callback_not_dockerCall e :
  isCallbackEvent e = true -> isDockerCall e = false.
Proof. revert e. by_call. Qed.

Lemma logger_not_fileCall e : isLoggerCall e = true -> isFileCall e = false.
Proof. revert e. by_call. Qed.

#[export] Hint Resolve callback_not_dockerCall : trace.
#[export] Hint Resolve logger_not_fileCall : aux.

Ltac unfold_upload :=
  unfold uploadFileResource, consultCache, transfer, uploadDockerResource,
    uploadExternalDockerResource, pushDockerResource, imageDigestForReference,
    registryAuthorizer, dockerRegistryDo.

(** X20.  [uploadResource] fails without making any call when the charm
    has no resource of the name given, or has one whose type is neither
    file nor docker.  For a resource of type file it makes no call of the
    docker upload: none to the reference parser, a registry, the docker
    daemon, or the store for upload info or a registration.  For a resource
    of type docker it makes no call of the file upload: none to the file
    system, the upload-id cache or the progress display, and no transfer. *)
Theorem uploadResource_keeps_the_uploads_apart {W : Type} (env : Env W)
    (w : W) (p : uploadResourceParams) :
  let t := traceOf (run env (uploadResource p) w) in
  let r := resultOf (run env (uploadResource p) w) in
  match meta p !! resourceName p with
  | None =>
      t = [] /\
      r = Err (errgo_New ("no such resource " ++ quoted (resourceName p)))
  | Some TypeFile => count isDockerCall t = 0%nat
  | Some TypeDocker => count isFileCall t = 0%nat
  | Some _ => t = [] /\ isErr r = true
  end.
Proof.
  cbv zeta. apply run_wp. unfold uploadResource.
  destruct (meta p !! resourceName p) as [[]|]; [done| | |done].
  - unfold_upload. repeat wp_step; trace_eval; done.
  - unfold_upload.
    repeat push_step; aux_eval; done.
Qed.

(** X21.  Every error [uploadResource] returns is an error made by
    [errgo.Newf], [errgo.Mask] or [errgo.Notef]: it records no cause, so
    its cause is the error itself.  The causes the code tests for on the
    way, [csclient.ErrUploadNotFound] of the store and the not-found error
    of the cache, are never the cause of an error returned. *)
Theorem returned_errors_hide_their_cause {W : Type} (env : Env W) (w : W)
    (p : uploadResourceParams) (err : error) :
  resultOf (run env (uploadResource p) w) = Err err ->
  (exists msg underlying, err = ErrgoErr msg None underlying) /\
  Cause err = err /\
  isErrUploadNotFound (Cause err) = false /\
  isErrCacheEntryNotFound (Cause err) = false.
Proof.
  intros Hr.
  assert (exists msg underlying, err = ErrgoErr msg None underlying) as Herr.
  { revert Hr.
    apply (run_wp env (uploadResource p) w (fun _ r =>
             r = Err err -> exists msg underlying,
               err = ErrgoErr msg None underlying)).
    unfold uploadResource.
    destruct (meta p !! resourceName p) as [[]|].
    - intros [= <-]. by eexists _, _.
    - unfold_upload. repeat wp_step; intros [= <-]; by eexists _, _.
    - unfold_upload. repeat push_step; intros [= <-]; by eexists _, _.
    - intros [= <-]. by eexists _, _. }
  split; [exact Herr|]. by destruct Herr as (msg & u & ->).
Qed.

Lemma returned_errors_hide_their_cause_witness :
  let err := errgo_Notef mustBeLowercase
               ("invalid image name " ++ quoted "external::Ubuntu") in
  resultOf (run sample (uploadResource badImage) rejectingParser) = Err err /\
  Cause err = err /\
  isErrUploadNotFound (Cause err) = false.
Proof.
  cbv zeta.
  assert (resultOf (run sample (uploadResource badImage) rejectingParser)
          = Err (errgo_Notef mustBeLowercase
                   ("invalid image name " ++ quoted "external::Ubuntu")))
    as Hr by (vm_compute; reflexivity).
  split; [exact Hr|].
  destruct (returned_errors_hide_their_cause sample rejectingParser badImage
              _ Hr) as (_ & Hc & Hn & _).
  split; [exact Hc|exact Hn].
Defined.

(** ** The --auth flag *)

Lemma Index_colon_cons (b : ascii) (s : string) :
  strings_Index (String b s) ":" =
    if Ascii.ascii_dec ":" b then Some 0%nat
    else option_map S (strings_Index s ":").
Proof.
  unfold strings_Index. cbn [String.index String.prefix].
  destruct (Ascii.ascii_dec ":" b); [by destruct s|].
  by destruct (String.index 0 ":" s).
Qed.

(** [strings.SplitN(s, ":", 2)], by the place of the first colon. *)
Lemma SplitN_colon (s : string) :
  strings_SplitN s ":" 2 =
    match strings_Index s ":" with
    | None => [s]
    | Some m =>
        [String.substring 0 m s;
         String.substring (S m) (String.length s - S m) s]
    end.
Proof.
  unfold strings_SplitN. destruct s as [|b s]; [done|].
  cbn [String.length Nat.min genSplit].
  destruct (strings_Index (String b s) ":") as [m|]; [|done].
  cbn [String.length]. by rewrite Nat.add_1_r.
Qed.

(** The text before the first colon has no colon, and with the colon and
    the text after it makes up the string. *)
Lemma Index_colon_split (s : string) (m : nat) :
  strings_Index s ":" = Some m ->
  (String.substring 0 m s ++ ":"
   ++ String.substring (S m) (String.length s - S m) s)%string = s /\
  strings_Index (String.substring 0 m s) ":" = None /\
  (String.substring 0 m s = ""%string <-> m = 0%nat).
Proof.
  revert m. induction s as [|b s IH]; intros m; [done|].
  rewrite Index_colon_cons. destruct (Ascii.ascii_dec ":" b) as [<-|Hb].
  - intros [= <-]. cbn. rewrite Nat.sub_0_r, substring_all. done.
  - destruct (strings_Index s ":") as [m'|] eqn:Hs; [|done].
    intros [= <-]. destruct (IH m' eq_refl) as (Hcat & Hnone & _).
    cbn [String.substring String.length Nat.sub String.append].
    split; [exact (f_equal (String b) Hcat)|]. split; [|done].
    rewrite Index_colon_cons, Hnone. by destruct (Ascii.ascii_dec ":" b).
Qed.

(** The first colon of [user ++ ":" ++ passwd] when [user] has none. *)
Lemma Index_colon_append (user passwd : string) :
  strings_Index user ":" = None ->
  strings_Index (user ++ ":" ++ passwd) ":" = Some (String.length user) /\
  String.substring 0 (String.length user) (user ++ ":" ++ passwd) = user /\
  String.substring (S (String.length user))
    (String.length (user ++ ":" ++ passwd) - S (String.length user))
    (user ++ ":" ++ passwd) = passwd.
Proof.
  induction user as [|b user IH].
  - intros _. change ("" ++ ":" ++ passwd)%string with (String ":" passwd).
    rewrite Index_colon_cons. cbn. rewrite Nat.sub_0_r, substring_all.
    by destruct (Ascii.ascii_dec ":" ":").
  - rewrite Index_colon_cons. destruct (Ascii.ascii_dec ":" b) as [|Hb]; [done|].
    destruct (strings_Index user ":") eqn:Hu; [done|]. intros _.
    destruct (IH eq_refl) as (Hi & Hu' & Hp).
    change (String b user ++ ":" ++ passwd)%string
      with (String b (user ++ ":" ++ passwd)).
    rewrite Index_colon_cons.
    destruct (Ascii.ascii_dec ":" b); [done|].
    cbn [String.length String.substring Nat.sub].
    rewrite Hi, Hu'. split; [done|]. split; [done|]. exact Hp.
Qed.

Lemma hasColon_false (s : string) :
  hasColon s = false <-> strings_Index s ":" = None.
Proof. unfold hasColon. by destruct (strings_Index s ":"). Qed.

Lemma HasPrefix_colon (s : string) :
  strings_HasPrefix s ":" = true <-> strings_Index s ":" = Some 0%nat.
Proof.
  unfold strings_HasPrefix. destruct s as [|b s]; [done|].
  rewrite Index_colon_cons. cbn [String.prefix].
  destruct (Ascii.ascii_dec ":" b).
  - by destruct s.
  - by destruct (strings_Index s ":").
Qed.

(** [Set] accepts the empty string, or a string with a first colon that
    is not at its start. *)
Lemma authInfo_Set_accepted (a a' : authInfo) (s : string) :
  authInfo_Set a s = (a', None) ->
  (s = ""%string /\ a' = mkAuthInfo "" "") \/
  (s <> ""%string /\
   exists m,
     strings_Index s ":" = Some m /\
     String.substring 0 m s <> ""%string /\
     a' = mkAuthInfo (String.substring 0 m s)
            (String.substring (S m) (String.length s - S m) s)).
Proof.
  unfold authInfo_Set. destruct (String.eqb_spec s "") as [->|Hs].
  { intros [= <-]. by left. }
  rewrite SplitN_colon.
  destruct (strings_Index s ":") as [m|] eqn:Hm; [|done].
  destruct (String.eqb_spec (String.substring 0 m s) "") as [|Hu]; [done|].
  intros [= <-]. right. split; [done|]. by exists m.
Qed.

(** X22.  When [Set] accepts a string, [String] of the receiver gives
    that string back.  The empty string clears the receiver; any other
    string accepted is cut at its first colon: the user name is the text
    before it, which is not empty and holds no colon, and the password is
    all the text after it, colons included. *)
Theorem Set_then_String_is_the_flag (a a' : authInfo) (s : string) :
  authInfo_Set a s = (a', None) ->
  authInfo_String a' = s /\
  (s = ""%string -> a' = mkAuthInfo "" "") /\
  (s <> ""%string ->
     username a' <> ""%string /\ hasColon (username a') = false /\
     s = (username a' ++ ":" ++ password a')%string).
Proof.
  intros [[-> ->]|(Hs & m & Hm & Hu & ->)]%authInfo_Set_accepted; [done|].
  destruct (Index_colon_split s m Hm) as (Hcat & Hnone & _).
  unfold authInfo_String. cbn [username password].
  rewrite (proj2 (String.eqb_neq _ _) Hu). cbn [andb].
  split; [exact Hcat|]. split; [done|]. intros _.
  split; [done|]. split; [by apply hasColon_false|done].
Qed.

Lemma Set_then_String_is_the_flag_witness :
  authInfo_Set (mkAuthInfo "" "") "who:se:cret"
  = (mkAuthInfo "who" "se:cret", None) /\
  authInfo_String (mkAuthInfo "who" "se:cret") = "who:se:cret"%string.
Proof.
  assert (authInfo_Set (mkAuthInfo "" "") "who:se:cret"
          = (mkAuthInfo "who" "se:cret", None)) as Hs by reflexivity.
  split; [exact Hs|].
  exact (proj1 (Set_then_String_is_the_flag _ _ _ Hs)).
Defined.

(** The four cases of [Set]. *)
Lemma authInfo_Set_cases (a : authInfo) (s : string) :
  (s = ""%string /\ authInfo_Set a s = (mkAuthInfo "" "", None)) \/
  (s <> ""%string /\ hasColon s = false /\
   strings_HasPrefix s ":" = false /\
   authInfo_Set a s
   = (a, Some (errgo_New ("invalid auth credentials: expected "
                          ++ quoted "user:passwd")))) \/
  (s <> ""%string /\ hasColon s = true /\
   strings_HasPrefix s ":" = true /\
   authInfo_Set a s = (a, Some (errgo_New "empty username"))) \/
  (s <> ""%string /\ hasColon s = true /\
   strings_HasPrefix s ":" = false /\
   exists user passwd, authInfo_Set a s = (mkAuthInfo user passwd, None)).
Proof.
  unfold authInfo_Set, hasColon.
  destruct (String.eqb_spec s "") as [->|Hs]; [by left|]. right.
  rewrite SplitN_colon.
  pose proof (HasPrefix_colon s) as Hp.
  destruct (strings_Index s ":") as [m|] eqn:Hm.
  - right. destruct (Index_colon_split s m Hm) as (_ & _ & Hu).
    destruct (String.eqb_spec (String.substring 0 m s) "") as [He|He].
    + left. apply Hu in He as ->. by rewrite (proj2 Hp eq_refl).
    + right. split; [done|]. split; [done|]. split; [|by eexists _, _].
      destruct (strings_HasPrefix s ":"); [|done].
      destruct Hp as [Hp _]. specialize (Hp eq_refl). simplify_eq.
      exfalso. by apply He, Hu.
  - left. split; [done|]. split; [done|]. split; [|done].
    destruct (strings_HasPrefix s ":"); [|done].
    destruct Hp as [Hp _]. by specialize (Hp eq_refl).
Qed.

(** X23.  [Set] accepts the empty string, and otherwise exactly the
    strings that hold a colon and do not begin with one.  A string without
    a colon is refused as invalid auth credentials, one that begins with a
    colon for its empty user name; and a refused string leaves the receiver
    as it was. *)
Theorem Set_accepts_user_colon_passwd (a : authInfo) (s : string) :
  ((authInfo_Set a s).2 = None <->
     s = ""%string \/
     (hasColon s = true /\ strings_HasPrefix s ":" = false)) /\
  (s <> ""%string -> hasColon s = false ->
     authInfo_Set a s
     = (a, Some (errgo_New ("invalid auth credentials: expected "
                            ++ quoted "user:passwd")))) /\
  (strings_HasPrefix s ":" = true ->
     authInfo_Set a s = (a, Some (errgo_New "empty username"))) /\
  ((authInfo_Set a s).2 <> None -> (authInfo_Set a s).1 = a).
Proof.
  destruct (authInfo_Set_cases a s)
    as [(-> & ->)|[(Hs & Hc & Hp & ->)|[(Hs & Hc & Hp & ->)
       |(Hs & Hc & Hp & user & passwd & ->)]]];
    rewrite ?Hc, ?Hp; cbn; intuition congruence.
Qed.

Lemma Set_accepts_user_colon_passwd_witness :
  hasColon "who" = false /\
  authInfo_Set (mkAuthInfo "admin" "hunter2") "who"
  = (mkAuthInfo "admin" "hunter2",
     Some (errgo_New ("invalid auth credentials: expected "
                      ++ quoted "user:passwd"))) /\
  strings_HasPrefix ":secret" ":" = true /\
  authInfo_Set (mkAuthInfo "admin" "hunter2") ":secret"
  = (mkAuthInfo "admin" "hunter2", Some (errgo_New "empty username")).
Proof.
  destruct (Set_accepts_user_colon_passwd (mkAuthInfo "admin" "hunter2") "who")
    as (_ & Hinvalid & _).
  destruct (Set_accepts_user_colon_passwd (mkAuthInfo "admin" "hunter2")
              ":secret") as (_ & _ & Hempty & _).
  split; [reflexivity|]. split; [apply Hinvalid; [discriminate|reflexivity]|].
  split; [reflexivity|]. apply Hempty. reflexivity.
Defined.

(** X24.  [Set] of what [String] gives restores the credentials exactly
    when the user name holds no colon and is not empty beside a password
    that is not: [String] joins the two with a colon and [Set] cuts at the
    first colon, so a colon of the user name would move to the password,
    and a password without user name is refused. *)
Theorem String_then_Set_restores (a0 a : authInfo) :
  authInfo_Set a0 (authInfo_String a) = (a, None) <->
  hasColon (username a) = false /\
  (username a = ""%string -> password a = ""%string).
Proof.
  split.
  - intros [[_ ->]|(_ & m & Hm & Hu & ->)]%authInfo_Set_accepted; [done|].
    destruct (Index_colon_split _ m Hm) as (_ & Hnone & _).
    cbn [username password]. split; [by apply hasColon_false|done].
  - intros [Hc Hu]. destruct a as [user passwd]. cbn in *.
    unfold authInfo_String. cbn [username password].
    destruct (String.eqb_spec user "") as [->|Huser].
    + rewrite (Hu eq_refl). done.
    + cbn [andb]. unfold authInfo_Set.
      destruct (String.eqb_spec (user ++ ":" ++ passwd) "") as [He|_].
      { by destruct user. }
      rewrite SplitN_colon.
      apply hasColon_false in Hc.
      destruct (Index_colon_append user passwd Hc) as (-> & -> & ->).
      by rewrite (proj2 (String.eqb_neq _ _) Huser).
Qed.

Lemma String_then_Set_restores_witness :
  hasColon (username (mkAuthInfo "who" "se:cret")) = false /\
  authInfo_Set (mkAuthInfo "" "") (authInfo_String (mkAuthInfo "who" "se:cret"))
  = (mkAuthInfo "who" "se:cret", None).
Proof.
  split; [reflexivity|].
  apply (proj2 (String_then_Set_restores (mkAuthInfo "" "")
                  (mkAuthInfo "who" "se:cret"))).
  split; [reflexivity|discriminate].
Defined.
